(** * Jamaah detection post-processing of [MosquePrayerDisplay.js]

    The component [MosquePrayerDisplay] asks a COCO-SSD model for the
    predictions of one video frame and turns them into the list of
    "jamaah" boxes it draws and counts: [detectObjects] filters the
    predictions, sorts them by confidence and hands them to [applyNMS],
    which uses [calculateIoU].  This file embeds those three functions
    and proves the properties the specification states about them.

    Numbers.  A JavaScript number is an IEEE double.  The scores and box
    coordinates of the predictions and the video dimensions are finite
    numbers, and the development works with their exact rational values
    ([Q]); rounding and the sign of zero are not modelled.  The one
    operation of this code that can leave the finite numbers, a division
    whose divisor may be zero, returns a [number] with [Infinity],
    [-Infinity] and [NaN] as JavaScript produces them.

    Arrays.  The first part models an array by the list of its elements
    and every array method by a function on lists.  The second part
    ([Module Heap]) keeps arrays in a store and runs the same code
    statement by statement, with its in-place updates, to show that the
    list functions compute what the mutating code computes and that the
    caller's array is left alone.

    The rest of the component.  Further sections embed what the
    component does around the detection: the table of prayer times with
    [getNextPrayer] and [calculateTimeUntilNext] (dates are milliseconds
    of local time in a zone of constant offset), what [detectObjects]
    paints on the canvas and publishes as count and fps, [startDetection]
    and [stopDetection] with the interval they manage, [formatDate] and
    [loadScript].  The HLS player, [formatTime], which depends on the
    locale data of the browser, and the markup are not modelled. *)

From Stdlib Require Import QArith Qminmax Lqa Ascii String List Sorted Permutation Bool Lia.
From Equations Require Import Equations.
From stdpp Require Import gmap pretty.
Import ListNotations.
Local Open Scope Q_scope.

(* ===================================================================== *)
(** * Numbers *)
(* ===================================================================== *)

(** [a < b] on finite numbers, as a test. *)
Definition Qltb (a b : Q) : bool := negb (Qle_bool b a).

(** The value of a JavaScript division. *)
Inductive number : Type :=
| Finite (q : Q)
| PosInfinity
| NegInfinity
| NaN.

(** [a / b]: a zero divisor gives [Infinity], [-Infinity] or [NaN]
    according to the sign of the dividend. *)
Definition js_div (a b : Q) : number :=
  if Qeq_bool b 0 then
    match a ?= 0 with
    | Gt => PosInfinity
    | Lt => NegInfinity
    | Eq => NaN
    end
  else Finite (a / b).

(** [n < c] and [n > c] for a finite [c]; every comparison with [NaN]
    is false. *)
Definition num_ltb (n : number) (c : Q) : bool :=
  match n with
  | Finite q => Qltb q c
  | NegInfinity => true
  | PosInfinity | NaN => false
  end.

Definition num_gtb (n : number) (c : Q) : bool :=
  match n with
  | Finite q => Qltb c q
  | PosInfinity => true
  | NegInfinity | NaN => false
  end.

(* ===================================================================== *)
(** * Predictions *)
(* ===================================================================== *)

(** [pred.bbox] is the array [[x, y, width, height]]. *)
Definition BBox : Type := (Q * Q * Q * Q)%type.

(** One prediction of the model: [{ class, score, bbox }]. *)
Record Detection : Type := mkDetection {
  class : string;
  score : Q;
  bbox : BBox
}.

Definition box_width (b : BBox) : Q := let '(_, _, width, _) := b in width.
Definition box_height (b : BBox) : Q := let '(_, _, _, height) := b in height.

(* ===================================================================== *)
(** * Array methods on lists *)
(* ===================================================================== *)

Section ArrayMethods.
Context {A : Type}.

(** [Array.prototype.sort(comparefn)].  ECMAScript requires the sort to
    be stable, and for a consistent [comparefn] that fixes the result
    whatever algorithm the engine runs ([Array_sort_unique] below shows it
    for the comparator of this code): [a] goes after [b] exactly when
    [comparefn(a, b) > 0].  The model inserts each element, from the last
    to the first, in front of the elements it need not follow. *)
Fixpoint sort_insert (comparefn : A -> A -> Q) (a : A) (l : list A) : list A :=
  match l with
  | [] => [a]
  | b :: l' =>
      if Qltb 0 (comparefn a b) then b :: sort_insert comparefn a l'
      else a :: b :: l'
  end.

Definition Array_sort (comparefn : A -> A -> Q) (l : list A) : list A :=
  fold_right (sort_insert comparefn) [] l.

(** [l.splice(i, 1)]: the array without the element at index [i]. *)
Definition Array_splice1 (l : list A) (i : nat) : list A :=
  firstn i l ++ skipn (S i) l.
End ArrayMethods.

(* ===================================================================== *)
(** * The three functions *)
(* ===================================================================== *)

(** The callback of [predictions.filter] in [detectObjects]. *)
Definition jamaah_filter (videoWidth videoHeight : Q) (pred : Detection) : bool :=
  if negb (String.eqb (class pred) "person") || Qltb (score pred) 0.65 then false
  else
    let '(x, y, width, height) := bbox pred in
    let aspectRatio := js_div width height in
    let area := width * height in
    Qltb width (videoWidth * 0.4) &&
    Qltb height (videoHeight * 0.8) &&
    Qltb 30 width &&
    Qltb 50 height &&
    num_ltb aspectRatio 2.5 &&
    num_gtb aspectRatio 0.3 &&
    Qltb area (videoWidth * videoHeight * 0.15).

(** The comparator [(a, b) => b.score - a.score]. *)
Definition by_score (a b : Detection) : Q := score b - score a.

(** [calculateIoU(boxA, boxB)].  The division is reached only with a
    positive divisor, where it is the division of [Q]. *)
Definition calculateIoU (boxA boxB : BBox) : Q :=
  let '(x1A, y1A, wA, hA) := boxA in
  let '(x1B, y1B, wB, hB) := boxB in
  let x2A := x1A + wA in
  let y2A := y1A + hA in
  let x2B := x1B + wB in
  let y2B := y1B + hB in
  let xA := Qmax x1A x1B in
  let yA := Qmax y1A y1B in
  let xB := Qmin x2A x2B in
  let yB := Qmin y2A y2B in
  let interArea := Qmax 0 (xB - xA) * Qmax 0 (yB - yA) in
  let boxAArea := wA * hA in
  let boxBArea := wB * hB in
  let unionArea := boxAArea + boxBArea - interArea in
  if Qltb 0 unionArea then interArea / unionArea else 0.

(** The test [width > 200 && aspectRatio > 1.8] of the loop of
    [applyNMS]. *)
Definition too_large (current : Detection) : bool :=
  let '(x, y, width, height) := bbox current in
  let aspectRatio := js_div width height in
  Qltb 200 width && num_gtb aspectRatio 1.8.

(** The inner loop of [applyNMS],
    [for (let i = sorted.length - 1; i >= 0; i--)], entered with
    [n = sorted.length]: [n] is the number of indices still to visit, the
    next one being [n - 1].  That index is always in range
    ([remove_overlapping_firstn]), so the last branch is never taken; the
    code on the store throws there. *)
Fixpoint remove_overlapping (current : Detection) (iouThreshold : Q)
    (n : nat) (sorted : list Detection) : list Detection :=
  match n with
  | O => sorted
  | S i =>
      match nth_error sorted i with
      | Some d =>
          let iou := calculateIoU (bbox current) (bbox d) in
          if Qltb iouThreshold iou
          then remove_overlapping current iouThreshold i (Array_splice1 sorted i)
          else remove_overlapping current iouThreshold i sorted
      | None => remove_overlapping current iouThreshold i sorted
      end
  end.

(** The loop [while (sorted.length > 0)] of [applyNMS]: [sorted.shift()]
    takes the head, [continue] drops it, [result.push] appends it. *)
Equations? nms_loop (iouThreshold : Q) (sorted result : list Detection)
  : list Detection by wf (length sorted) lt :=
  nms_loop iouThreshold [] result := result;
  nms_loop iouThreshold (current :: sorted) result :=
    if too_large current then nms_loop iouThreshold sorted result
    else nms_loop iouThreshold
           (remove_overlapping current iouThreshold (length sorted) sorted)
           (result ++ [current]).
Proof.
  - simpl; lia.
  - assert (Hlen : forall n l,
               (length (remove_overlapping current iouThreshold n l) <= length l)%nat).
    { induction n as [|n IH]; intros l; simpl; [lia|].
      destruct (nth_error l n) as [d|] eqn:Hd; [|apply IH].
      destruct (Qltb _ _); [|apply IH].
      etransitivity; [apply IH|].
      unfold Array_splice1. rewrite length_app, length_firstn, length_skipn. lia. }
    specialize (Hlen (length sorted) sorted). simpl; lia.
Qed.

(** [applyNMS(detections, iouThreshold)]; [[...detections]] is a copy, so
    the sort does not touch the argument. *)
Definition applyNMS (detections : list Detection) (iouThreshold : Q) : list Detection :=
  if (length detections =? 0)%nat then []
  else
    let result := [] in
    let sorted := Array_sort by_score detections in
    nms_loop iouThreshold sorted result.

(** [detectObjects], from the predictions the model returned to the array
    [jamaah] that is drawn and counted.  [videoWidth] and [videoHeight]
    are [video.videoWidth] and [video.videoHeight]; the function returns
    before this point when [video.videoWidth] is zero. *)
Definition detectObjects (videoWidth videoHeight : Q) (predictions : list Detection)
  : list Detection :=
  let jamaah := List.filter (jamaah_filter videoWidth videoHeight) predictions in
  let jamaah := Array_sort by_score jamaah in
  applyNMS jamaah 0.3.

(* ===================================================================== *)
(** * The same code on a store of arrays *)
(* ===================================================================== *)

(** A store maps the reference of each array to its elements.  Detection
    objects are only read by this code, so an array holds them as
    values. *)
Abbreviation heap := (gmap positive (list Detection)).

Module Heap.

Inductive outcome (A : Type) : Type :=
| Done (a : A) (h : heap)
| TypeError
| OutOfFuel.
Arguments Done {A} a h.
Arguments TypeError {A}.
Arguments OutOfFuel {A}.

(** A computation on the store.  [TypeError] is what JavaScript throws
    when a property of [undefined] is read; [OutOfFuel] ends a loop that
    was given too few iterations. *)
Definition M (A : Type) : Type := heap -> outcome A.

#[global] Instance M_ret : MRet M := fun A a h => Done a h.

#[global] Instance M_bind : MBind M := fun A B f m h =>
  match m h with
  | Done a h' => f a h'
  | TypeError => TypeError
  | OutOfFuel => OutOfFuel
  end.

Definition throw {A : Type} : M A := fun _ => TypeError.

(** A new array. *)
Definition alloc (l : list Detection) : M positive := fun h =>
  let r := fresh (dom h) in Done r (<[r := l]> h).

Definition read (r : positive) : M (list Detection) := fun h =>
  match h !! r with
  | Some l => Done l h
  | None => TypeError
  end.

(** An update in place. *)
Definition write (r : positive) (l : list Detection) : M unit := fun h =>
  match h !! r with
  | Some _ => Done tt (<[r := l]> h)
  | None => TypeError
  end.

(** [a.filter(f)] returns a new array. *)
Definition filter_array (f : Detection -> bool) (a : positive) : M positive :=
  l ← read a; alloc (List.filter f l).

(** [a.sort(comparefn)] sorts [a] in place and returns [a]. *)
Definition sort_array (comparefn : Detection -> Detection -> Q) (a : positive)
  : M positive :=
  l ← read a; write a (Array_sort comparefn l);; mret a.

(** [[...a]] is a new array with the elements of [a]. *)
Definition spread (a : positive) : M positive :=
  l ← read a; alloc l.

(** [a.length]. *)
Definition length_array (a : positive) : M nat :=
  l ← read a; mret (length l).

(** [a.shift()] removes the first element and returns it. *)
Definition shift_array (a : positive) : M (option Detection) :=
  l ← read a;
  match l with
  | [] => mret None
  | d :: l' => write a l';; mret (Some d)
  end.

(** [a.push(d)]. *)
Definition push_array (a : positive) (d : Detection) : M unit :=
  l ← read a; write a (l ++ [d]).

(** [a[i]]. *)
Definition get_array (a : positive) (i : nat) : M (option Detection) :=
  l ← read a; mret (nth_error l i).

(** [a.splice(i, 1)]. *)
Definition splice_array (a : positive) (i : nat) : M unit :=
  l ← read a; write a (Array_splice1 l i).

(** [for (let i = sorted.length - 1; i >= 0; i--)] with [n] indices left;
    [sorted[i].bbox] throws when [sorted[i]] is [undefined]. *)
Fixpoint for_loop (current : Detection) (iouThreshold : Q) (sorted : positive)
    (n : nat) : M unit :=
  match n with
  | O => mret tt
  | S i =>
      e ← get_array sorted i;
      match e with
      | None => throw
      | Some d =>
          let iou := calculateIoU (bbox current) (bbox d) in
          (if Qltb iouThreshold iou then splice_array sorted i else mret tt);;
          for_loop current iouThreshold sorted i
      end
  end.

(** [while (sorted.length > 0)], run for at most [fuel] iterations. *)
Fixpoint while_loop (fuel : nat) (iouThreshold : Q) (sorted result : positive)
  : M unit :=
  match fuel with
  | O => fun _ => OutOfFuel
  | S fuel =>
      n ← length_array sorted;
      if (n =? 0)%nat then mret tt
      else
        e ← shift_array sorted;
        match e with
        | None => throw
        | Some current =>
            if too_large current then while_loop fuel iouThreshold sorted result
            else
              push_array result current;;
              n ← length_array sorted;
              for_loop current iouThreshold sorted n;;
              while_loop fuel iouThreshold sorted result
        end
  end.

Definition applyNMS (fuel : nat) (detections : positive) (iouThreshold : Q)
  : M positive :=
  n ← length_array detections;
  if (n =? 0)%nat then alloc []
  else
    result ← alloc [];
    copy ← spread detections;
    sorted ← sort_array by_score copy;
    while_loop fuel iouThreshold sorted result;;
    mret result.

Definition detectObjects (fuel : nat) (videoWidth videoHeight : Q)
    (predictions : positive) : M positive :=
  jamaah ← filter_array (jamaah_filter videoWidth videoHeight) predictions;
  _ ← sort_array by_score jamaah;
  applyNMS fuel jamaah 0.3.

End Heap.

(* ===================================================================== *)
(** * The vocabulary of the specification *)
(* ===================================================================== *)

(** The Stage 1 conditions as the specification lists them. *)
Definition stage1 (frameWidth frameHeight : Q) (d : Detection) : Prop :=
  let width := box_width (bbox d) in
  let height := box_height (bbox d) in
  class d = "person"%string /\
  0.65 <= score d /\
  width < 0.40 * frameWidth /\
  height < 0.80 * frameHeight /\
  30 < width /\
  50 < height /\
  0.3 < width / height /\
  width / height < 2.5 /\
  width * height < 0.15 * frameWidth * frameHeight.

(** The secondary check of the specification: a box wider than 200 whose
    aspect ratio [width / height] exceeds 1.8. *)
Definition wide (d : Detection) : Prop :=
  200 < box_width (bbox d) /\
  num_gtb (js_div (box_width (bbox d)) (box_height (bbox d))) 1.8 = true.

(** The intersection over union of two boxes as the specification
    describes it. *)
Definition iou_spec (boxA boxB : BBox) : Q :=
  let '(xA, yA, wA, hA) := boxA in
  let '(xB, yB, wB, hB) := boxB in
  let left := Qmax xA xB in
  let top := Qmax yA yB in
  let right := Qmin (xA + wA) (xB + wB) in
  let bottom := Qmin (yA + hA) (yB + hB) in
  let width := right - left in
  let height := bottom - top in
  let intersection := if Qltb width 0 || Qltb height 0 then 0 else width * height in
  let union := wA * hA + wB * hB - intersection in
  if Qeq_bool union 0 then 0 else intersection / union.

(** A box with a zero or negative width or height. *)
Definition degenerate (d : Detection) : Prop :=
  box_width (bbox d) <= 0 \/ box_height (bbox d) <= 0.

Definition degenerateb (d : Detection) : bool :=
  Qle_bool (box_width (bbox d)) 0 || Qle_bool (box_height (bbox d)) 0.

(** Descending confidence: [a] may stand before [b]. *)
Definition score_ge (a b : Detection) : Prop := score b <= score a.

(** The detections whose score is [s]. *)
Definition has_score (s : Q) (d : Detection) : bool := Qeq_bool (score d) s.

(** [d] stays in [sorted] after [current] was accepted. *)
Definition keeps (current : Detection) (iouThreshold : Q) (d : Detection) : bool :=
  negb (Qltb iouThreshold (calculateIoU (bbox current) (bbox d))).

(* ===================================================================== *)
(** * Sample frames *)
(* ===================================================================== *)

Definition person (s : Q) (b : BBox) : Detection :=
  {| class := "person"; score := s; bbox := b |}.

Definition car (s : Q) (b : BBox) : Detection :=
  {| class := "car"; score := s; bbox := b |}.

(** Two persons in a 1920 x 1080 frame: a wide box of score 0.9 and, in
    its left half, a square box of score 0.8. *)
Definition wide_best : Detection := person 0.9 (0, 0, 400, 200).
Definition square_second : Detection := person 0.8 (0, 0, 200, 200).

(** A frame of 640 x 480 with a car, two persons side by side and a third
    almost on top of the better one. *)
Definition frame_predictions : list Detection :=
  [car 0.99 (0, 0, 100, 100); person 0.8 (50, 10, 50, 100);
   person 0.9 (10, 10, 50, 100); person 0.7 (12, 10, 50, 100)].

(** No two detections of [l] have the same score. *)
Definition distinct_scores (l : list Detection) : Prop :=
  ForallOrdPairs (fun a b => ~ score a == score b) l.

(* ===================================================================== *)
(** * Prayer times and the countdown *)
(* ===================================================================== *)

(** One entry of [prayerTimes]: [{ name, time }]. *)
Record Prayer : Type := mkPrayer {
  name : string;
  time : string
}.

Definition prayerTimes : list Prayer :=
  [ {| name := "Subuh"; time := "04:45" |};
    {| name := "Terbit"; time := "06:01" |};
    {| name := "Dhuha"; time := "06:30" |};
    {| name := "Dzuhur"; time := "12:03" |};
    {| name := "Ashar"; time := "15:24" |};
    {| name := "Maghrib"; time := "17:57" |};
    {| name := "Isya"; time := "19:09" |} ].

(** [s.split(sep)] for a separator of one character. *)
Fixpoint String_split (sep : ascii) (s : string) : list string :=
  match s with
  | EmptyString => [EmptyString]
  | String c s' =>
      if Ascii.eqb c sep then EmptyString :: String_split sep s'
      else
        match String_split sep s' with
        | piece :: pieces => String c piece :: pieces
        | [] => [String c EmptyString]
        end
  end.

(** The value of a decimal digit. *)
Definition digit_value (c : ascii) : option Z :=
  let n := Z.of_N (N_of_ascii c) in
  if (48 <=? n)%Z && (n <=? 57)%Z then Some (n - 48)%Z else None.

(** The number written by the digits of [s] after the digits that gave
    [acc]; [None] when [s] has another character. *)
Fixpoint digits_value (acc : Z) (s : string) : option Z :=
  match s with
  | EmptyString => Some acc
  | String c s' =>
      match digit_value c with
      | Some d => digits_value (10 * acc + d)%Z s'
      | None => None
      end
  end.

(** [Number(s)] and [parseInt(s)] on the strings this code converts, the
    pieces of the times of [prayerTimes]: a string of decimal digits has
    the number it writes, the empty string is 0 for [Number] and [NaN]
    for [parseInt], and [NaN] is [None].  Numerals of other shapes (sign,
    fraction, exponent, hexadecimal, blanks around) are outside this
    model, which answers [None] for every string with a character that
    is no digit. *)
Definition Number (s : string) : option Z := digits_value 0 s.

Definition parseInt (s : string) : option Z :=
  match s with
  | EmptyString => None
  | _ => digits_value 0 s
  end.

(** A [Date] as the clock functions read it: the milliseconds of local
    time, counted from a local midnight, in a zone whose offset from UTC
    does not change (WIB, which the page displays, has no daylight
    saving). *)
Definition getHours (date : Z) : Z := ((date mod 86400000) / 3600000)%Z.
Definition getMinutes (date : Z) : Z := ((date mod 3600000) / 60000)%Z.

(** [date.setHours(hours, minutes, 0, 0)]: the same day at that time. *)
Definition setHours (date hours minutes : Z) : Z :=
  (date - date mod 86400000 + hours * 3600000 + minutes * 60000)%Z.

(** [h * 60 + m] for [[h, m] = prayer.time.split(':').map(Number)]; a
    missing piece is [undefined] and makes the sum [NaN]. *)
Definition prayerMinutes (prayer : Prayer) : option Z :=
  match List.map Number (String_split ":" (time prayer)) with
  | Some h :: Some m :: _ => Some (h * 60 + m)%Z
  | _ => None
  end.

(** [getNextPrayer], with [currentTime] the state of the component. The
    loop returns the first prayer it finds later than the current
    minute; a comparison with [NaN] is false. *)
Definition getNextPrayer (currentTime : Z) : option Prayer :=
  let currentMinutes := (getHours currentTime * 60 + getMinutes currentTime)%Z in
  match
    List.find
      (fun prayer =>
         match prayerMinutes prayer with
         | Some m => (currentMinutes <? m)%Z
         | None => false
         end)
      prayerTimes
  with
  | Some prayer => Some prayer
  | None => nth_error prayerTimes 0
  end.

(** The numbers [h], [m] and [s] of [calculateTimeUntilNext].  [now] is
    the first [new Date()] and [today] the second, whose hours are set;
    [%] is the remainder that takes the sign of the dividend;
    [None] stands for three [NaN]. *)
Definition timeUntilNext (now today : Z) (nextPrayer : Prayer) : option (Z * Z * Z) :=
  match String_split ":" (time nextPrayer) with
  | hours :: minutes :: _ =>
      match parseInt hours, parseInt minutes with
      | Some hours, Some minutes =>
          let nextPrayerTime := setHours today hours minutes in
          let nextPrayerTime :=
            if (nextPrayerTime <=? now)%Z then (nextPrayerTime + 86400000)%Z
            else nextPrayerTime in
          let diff := (nextPrayerTime - now)%Z in
          let h := (diff / 3600000)%Z in
          let m := (Z.rem diff 3600000 / 60000)%Z in
          let s := (Z.rem diff 60000 / 1000)%Z in
          Some (h, m, s)
      | _, _ => None
      end
  | _ => None
  end.

(** [calculateTimeUntilNext]: the text [`${h}h ${m}m ${s}s`]. *)
Definition calculateTimeUntilNext (now today : Z) (nextPrayer : Prayer) : string :=
  match timeUntilNext now today nextPrayer with
  | Some (h, m, s) => pretty h +:+ "h " +:+ pretty m +:+ "m " +:+ pretty s +:+ "s"
  | None => "NaNh NaNm NaNs"
  end.

(* ===================================================================== *)
(** * Arithmetic on [number] *)
(* ===================================================================== *)

(** Product, sum and difference with the infinities and [NaN] of
    JavaScript. *)
Definition js_mul (a b : number) : number :=
  match a, b with
  | NaN, _ | _, NaN => NaN
  | Finite p, Finite q => Finite (p * q)
  | Finite p, PosInfinity | PosInfinity, Finite p =>
      match p ?= 0 with Gt => PosInfinity | Lt => NegInfinity | Eq => NaN end
  | Finite p, NegInfinity | NegInfinity, Finite p =>
      match p ?= 0 with Gt => NegInfinity | Lt => PosInfinity | Eq => NaN end
  | PosInfinity, PosInfinity | NegInfinity, NegInfinity => PosInfinity
  | PosInfinity, NegInfinity | NegInfinity, PosInfinity => NegInfinity
  end.

Definition js_add (a b : number) : number :=
  match a, b with
  | NaN, _ | _, NaN => NaN
  | Finite p, Finite q => Finite (p + q)
  | PosInfinity, NegInfinity | NegInfinity, PosInfinity => NaN
  | PosInfinity, _ | _, PosInfinity => PosInfinity
  | NegInfinity, _ | _, NegInfinity => NegInfinity
  end.

Definition js_neg (a : number) : number :=
  match a with
  | Finite p => Finite (- p)
  | PosInfinity => NegInfinity
  | NegInfinity => PosInfinity
  | NaN => NaN
  end.

Definition js_sub (a b : number) : number := js_add a (js_neg b).

(* ===================================================================== *)
(** * The canvas and what [detectObjects] paints *)
(* ===================================================================== *)

(** What the code does with the 2D context, one constructor for each
    property it sets and each method it calls.  [arc] takes its angles in
    units of [Math.PI]. *)
Inductive canvas_op : Type :=
| strokeStyle (style : string)
| fillStyle (style : string)
| lineWidth (w : Q)
| font (f : string)
| textBaseline (b : string)
| textAlign (a : string)
| strokeRect (x y w h : number)
| fillRect (x y w h : number)
| fillText (text : string) (x y : number)
| beginPath
| arc (x y : number) (radius startAngle endAngle : Q)
| fill
| stroke.

(** The body of [jamaah.forEach((detection, index) => ...)]. *)
Definition draw_detection (scaleX scaleY : number) (index : nat)
    (detection : Detection) : list canvas_op :=
  let '(x, y, width, height) := bbox detection in
  let jamaahNumber := (index + 1)%nat in
  let scaledX := js_mul (Finite x) scaleX in
  let scaledY := js_mul (Finite y) scaleY in
  let scaledWidth := js_mul (Finite width) scaleX in
  let scaledHeight := js_mul (Finite height) scaleY in
  let labelText := "Jamaah " +:+ pretty jamaahNumber in
  let labelWidth := 120 in
  [ strokeStyle "#10B981";
    lineWidth 4;
    strokeRect scaledX scaledY scaledWidth scaledHeight;
    fillStyle "rgba(16, 185, 129, 0.2)";
    fillRect scaledX scaledY scaledWidth scaledHeight;
    fillStyle "rgba(16, 185, 129, 0.9)";
    fillRect scaledX (js_sub scaledY (Finite 35)) (Finite labelWidth) (Finite 30);
    fillStyle "white";
    font "bold 16px Arial";
    textBaseline "middle";
    fillText labelText (js_add scaledX (Finite 5)) (js_sub scaledY (Finite 20));
    fillStyle "#DC2626";
    beginPath;
    arc (js_sub (js_add scaledX scaledWidth) (Finite 20)) (js_add scaledY (Finite 20))
        15 0 2;
    fill;
    strokeStyle "white";
    lineWidth 2;
    stroke;
    fillStyle "white";
    font "bold 14px Arial";
    textAlign "center";
    fillText (pretty jamaahNumber)
      (js_sub (js_add scaledX scaledWidth) (Finite 20)) (js_add scaledY (Finite 20));
    textAlign "left";
    textBaseline "alphabetic" ].

(** [jamaah.forEach] from index [index] on. *)
Fixpoint draw_from (scaleX scaleY : number) (index : nat) (jamaah : list Detection)
  : list canvas_op :=
  match jamaah with
  | [] => []
  | detection :: rest =>
      draw_detection scaleX scaleY index detection
      ++ draw_from scaleX scaleY (S index) rest
  end.

(** The [<video>] and [<canvas>] elements as far as this code reads and
    writes them.  [painted] is what was done to the context since the
    canvas was last wiped; the sizes of [canvas.style] are kept as
    numbers of pixels. *)
Record Video : Type := mkVideo {
  videoWidth : Q;
  videoHeight : Q
}.

Record Canvas : Type := mkCanvas {
  canvas_width : Q;
  canvas_height : Q;
  style_width : Q;
  style_height : Q;
  painted : list canvas_op
}.

(** [updateCanvasSize] of [setupCanvas], with [rect] the bounding
    rectangle of the video element.  Setting the width or height of a
    canvas wipes it. *)
Definition updateCanvasSize (video : Video) (rect_width rect_height : Q)
    (canvas : Canvas) : Canvas :=
  if Qltb 0 (videoWidth video) && Qltb 0 (videoHeight video) then
    {| canvas_width := videoWidth video;
       canvas_height := videoHeight video;
       style_width := rect_width;
       style_height := rect_height;
       painted := [] |}
  else canvas.

(** The part of [detectObjects] that paints: [clearRect] over the whole
    canvas, then the boxes of [jamaah]. *)
Definition paint (video : Video) (canvas : Canvas) (jamaah : list Detection) : Canvas :=
  let scaleX := js_div (canvas_width canvas) (videoWidth video) in
  let scaleY := js_div (canvas_height canvas) (videoHeight video) in
  {| canvas_width := canvas_width canvas;
     canvas_height := canvas_height canvas;
     style_width := style_width canvas;
     style_height := style_height canvas;
     painted := draw_from scaleX scaleY 0 jamaah |}.

(* ===================================================================== *)
(** * The state of the component *)
(* ===================================================================== *)

(** [detectionStats]. *)
Record DetectionStats : Type := mkStats {
  processTime : Z;
  isDetecting : bool;
  fps : nat
}.

(** The state and the refs of the component that the detection code
    uses, and the intervals the browser runs for it.  A ref that holds
    [null] is [None]; [modelRef] tells whether a model is loaded. *)
Record Component : Type := mkComponent {
  jamaahCount : nat;
  detectionStats : DetectionStats;
  videoRef : option Video;
  canvasRef : option Canvas;
  modelRef : bool;
  detectionIntervalRef : option nat;
  frameCountRef : nat;
  lastFpsTimeRef : Z;
  intervals : gset nat;
  nextInterval : nat
}.

(** The component as it mounts, at time [now]. *)
Definition mounted (now : Z) : Component :=
  {| jamaahCount := 0;
     detectionStats := {| processTime := 0; isDetecting := false; fps := 0 |};
     videoRef := None;
     canvasRef := None;
     modelRef := false;
     detectionIntervalRef := None;
     frameCountRef := 0;
     lastFpsTimeRef := now;
     intervals := ∅;
     nextInterval := 1 |}.

(** [startDetection]: [setInterval] returns a new identifier. *)
Definition startDetection (c : Component) : Component :=
  match detectionIntervalRef c with
  | Some _ => c
  | None =>
      {| jamaahCount := jamaahCount c;
         detectionStats :=
           {| processTime := processTime (detectionStats c);
              isDetecting := true;
              fps := fps (detectionStats c) |};
         videoRef := videoRef c;
         canvasRef := canvasRef c;
         modelRef := modelRef c;
         detectionIntervalRef := Some (nextInterval c);
         frameCountRef := frameCountRef c;
         lastFpsTimeRef := lastFpsTimeRef c;
         intervals := {[nextInterval c]} ∪ intervals c;
         nextInterval := S (nextInterval c) |}
  end.

(** [ctx.clearRect(0, 0, canvas.width, canvas.height)]. *)
Definition wipe (canvas : Canvas) : Canvas :=
  {| canvas_width := canvas_width canvas;
     canvas_height := canvas_height canvas;
     style_width := style_width canvas;
     style_height := style_height canvas;
     painted := [] |}.

(** [stopDetection]. *)
Definition stopDetection (c : Component) : Component :=
  {| jamaahCount := 0;
     detectionStats :=
       {| processTime := processTime (detectionStats c);
          isDetecting := false;
          fps := fps (detectionStats c) |};
     videoRef := videoRef c;
     canvasRef := option_map wipe (canvasRef c);
     modelRef := modelRef c;
     detectionIntervalRef := None;
     frameCountRef := frameCountRef c;
     lastFpsTimeRef := lastFpsTimeRef c;
     intervals :=
       match detectionIntervalRef c with
       | Some id => intervals c ∖ {[id]}
       | None => intervals c
       end;
     nextInterval := nextInterval c |}.

(** [detectObjects] from the moment [model.detect] has answered with
    [predictions] (when it fails instead, the function only logs the
    error).  [video] and [canvas] are the elements the function took from
    the refs before it called the model, in the state they have now;
    what is painted shows in the component as long as [canvasRef] holds
    an element.  [afterNMS] and [now] are the two later readings of
    [Date.now()]. *)
Definition detectObjects_resume (video : Video) (canvas : Canvas)
    (predictions : list Detection) (startTime afterNMS now : Z) (c : Component)
  : Component :=
  let jamaah := detectObjects (videoWidth video) (videoHeight video) predictions in
  let processTime := (afterNMS - startTime)%Z in
  let frameCount := S (frameCountRef c) in
  let publish := (1000 <=? now - lastFpsTimeRef c)%Z in
  {| jamaahCount := length jamaah;
     detectionStats :=
       {| processTime := processTime;
          isDetecting := true;
          fps := if publish then frameCount else fps (detectionStats c) |};
     videoRef := videoRef c;
     canvasRef := option_map (fun _ => paint video canvas jamaah) (canvasRef c);
     modelRef := modelRef c;
     detectionIntervalRef := detectionIntervalRef c;
     frameCountRef := if publish then 0%nat else frameCount;
     lastFpsTimeRef := if publish then now else lastFpsTimeRef c;
     intervals := intervals c;
     nextInterval := nextInterval c |}.

(** What happens to the component: a press on Start, a press on Stop, an
    answer of the model to a running [detectObjects]. *)
Inductive event : Type :=
| Start
| Stop
| Answer (video : Video) (canvas : Canvas) (predictions : list Detection)
    (startTime afterNMS now : Z).

Definition step (c : Component) (e : event) : Component :=
  match e with
  | Start => startDetection c
  | Stop => stopDetection c
  | Answer video canvas predictions startTime afterNMS now =>
      detectObjects_resume video canvas predictions startTime afterNMS now c
  end.

Definition run (events : list event) (c : Component) : Component :=
  fold_left step events c.

(** The values of [fps] that a run publishes, in order. *)
Fixpoint fps_log (events : list event) (c : Component) : list nat :=
  match events with
  | [] => []
  | e :: events' =>
      let c' := step c e in
      match e with
      | Answer _ _ _ _ _ now =>
          if (1000 <=? now - lastFpsTimeRef c)%Z
          then fps (detectionStats c') :: fps_log events' c'
          else fps_log events' c'
      | _ => fps_log events' c'
      end
  end.


(** The rectangles stroked and the texts written by a list of
    operations. *)
Definition boxes_of (ops : list canvas_op) : list (number * number * number * number) :=
  flat_map (fun op => match op with strokeRect x y w h => [(x, y, w, h)] | _ => [] end) ops.

Definition texts_of (ops : list canvas_op) : list string :=
  flat_map (fun op => match op with fillText text _ _ => [text] | _ => [] end) ops.

Definition is_finite (n : number) : bool :=
  match n with Finite _ => true | _ => false end.

(** Every coordinate the operation passes to the context is a finite
    number. *)
Definition op_finite (op : canvas_op) : bool :=
  match op with
  | strokeRect x y w h | fillRect x y w h =>
      is_finite x && is_finite y && is_finite w && is_finite h
  | fillText _ x y | arc x y _ _ _ => is_finite x && is_finite y
  | _ => true
  end.

(** The same finite number. *)
Definition number_is (n : number) (q : Q) : Prop :=
  match n with Finite p => p == q | _ => False end.

(** The intervals the browser runs are the one [detectionIntervalRef]
    holds, and identifiers to come are new. *)
Definition intervals_ok (c : Component) : Prop :=
  intervals c = match detectionIntervalRef c with
                | Some id => {[id]}
                | None => ∅
                end /\
  (forall id, detectionIntervalRef c = Some id -> (id < nextInterval c)%nat) /\
  (detectionIntervalRef c <> None -> isDetecting (detectionStats c) = true).

(* ===================================================================== *)
(** * The date line and the script loader *)
(* ===================================================================== *)

(** A [Date] as [formatDate] reads it: the values of [getDay()],
    [getDate()], [getMonth()] and [getFullYear()]. *)
Record CalendarDate : Type := mkCalendarDate {
  getDay : nat;
  getDate : nat;
  getMonth : nat;
  getFullYear : Z
}.

Definition days : list string :=
  ["Minggu"; "Senin"; "Selasa"; "Rabu"; "Kamis"; "Jumat"; "Sabtu"].

Definition months : list string :=
  ["Januari"; "Februari"; "Maret"; "April"; "Mei"; "Juni";
   "Juli"; "Agustus"; "September"; "Oktober"; "November"; "Desember"].

(** An element of an array in a template: an index past the end gives
    [undefined], written "undefined". *)
Definition template_item (a : list string) (i : nat) : string :=
  match nth_error a i with
  | Some s => s
  | None => "undefined"
  end.

(** [formatDate]: [`${dayName}, ${day} ${month} ${year}`]. *)
Definition formatDate (date : CalendarDate) : string :=
  let dayName := template_item days (getDay date) in
  let day := getDate date in
  let month := template_item months (getMonth date) in
  let year := getFullYear date in
  dayName +:+ ", " +:+ pretty day +:+ " " +:+ month +:+ " " +:+ pretty year.

(** [c] occurs in [s]. *)
Fixpoint has_char (c : ascii) (s : string) : bool :=
  match s with
  | EmptyString => false
  | String c' s' => Ascii.eqb c c' || has_char c s'
  end.

(** [loadScript(src)] on the [src] attributes of the script elements of
    the document, in document order: a script that is there is not added
    again and the promise is resolved at once ([true]); otherwise a new
    script is appended and the promise waits for it to load ([false]).
    The selector [script[src="..."]] finds the attribute that equals
    [src] as long as [src] has no quote or backslash. *)
Definition loadScript (src : string) (scripts : list string) : list string * bool :=
  if existsb (String.eqb src) scripts then (scripts, true)
  else (scripts ++ [src], false).

(** One call of [loadScript] after the other. *)
Definition loadScripts (srcs : list string) (scripts : list string) : list string :=
  fold_left (fun scripts src => fst (loadScript src scripts)) srcs scripts.

(* ===================================================================== *)
(** * Sample runs *)
(* ===================================================================== *)

Example detectObjects_single :
  detectObjects 640 480 [person 0.9 (10, 10, 50, 100)] = [person 0.9 (10, 10, 50, 100)].
Proof. reflexivity. Qed.

Example js_div_by_zero :
  js_div 250 0 = PosInfinity /\ js_div (-50) 0 = NegInfinity /\ js_div 0 0 = NaN.
Proof. repeat split. Qed.

Example Array_sort_stable_ties :
  Array_sort by_score
    [person 0.7 (1, 0, 0, 0); person 0.9 (2, 0, 0, 0); person 0.7 (3, 0, 0, 0);
     person 0.9 (4, 0, 0, 0)]
  = [person 0.9 (2, 0, 0, 0); person 0.9 (4, 0, 0, 0); person 0.7 (1, 0, 0, 0);
     person 0.7 (3, 0, 0, 0)].
Proof. reflexivity. Qed.

Example remove_overlapping_run :
  remove_overlapping (person 0.9 (10, 10, 50, 100)) 0.3 3
    [person 0.8 (12, 10, 50, 100); person 0.8 (50, 10, 50, 100);
     person 0.7 (10, 12, 50, 100)]
  = [person 0.8 (50, 10, 50, 100)].
Proof. reflexivity. Qed.

(* ===================================================================== *)
(** * Facts about numbers *)
(* ===================================================================== *)

Lemma Qltb_lt (a b : Q) : Qltb a b = true <-> a < b.
Proof.
  unfold Qltb. rewrite negb_true_iff, <- not_true_iff_false, Qle_bool_iff.
  split; [apply Qnot_le_lt | apply Qlt_not_le].
Qed.

Lemma Qltb_ge (a b : Q) : Qltb a b = false <-> b <= a.
Proof.
  unfold Qltb. rewrite negb_false_iff. apply Qle_bool_iff.
Qed.

Lemma Qltb_compat (a a' b b' : Q) : a == a' -> b == b' -> Qltb a b = Qltb a' b'.
Proof.
  intros Ha Hb. unfold Qltb. now rewrite Ha, Hb.
Qed.

(** Away from a zero divisor [js_div] is the division of [Q]. *)
Lemma js_div_finite (a b : Q) : ~ b == 0 -> js_div a b = Finite (a / b).
Proof.
  intros Hb. unfold js_div.
  destruct (Qeq_bool b 0) eqn:E; [|reflexivity].
  apply Qeq_bool_iff in E. contradiction.
Qed.

Lemma by_score_gt (a b : Detection) :
  Qltb 0 (by_score a b) = true <-> score a < score b.
Proof.
  unfold by_score. rewrite Qltb_lt. split; intros H; lra.
Qed.

Lemma by_score_le (a b : Detection) :
  Qltb 0 (by_score a b) = false <-> score b <= score a.
Proof.
  unfold by_score. rewrite Qltb_ge. split; intros H; lra.
Qed.

(* ===================================================================== *)
(** * Facts about [Array_sort] *)
(* ===================================================================== *)

Section SortFacts.
Context {A : Type} (comparefn : A -> A -> Q).

Lemma sort_insert_perm (a : A) (l : list A) :
  Permutation (sort_insert comparefn a l) (a :: l).
Proof.
  induction l as [|b l IH]; simpl; [reflexivity|].
  destruct (Qltb 0 (comparefn a b)); [|reflexivity].
  rewrite IH. apply perm_swap.
Qed.

Lemma Array_sort_perm (l : list A) : Permutation (Array_sort comparefn l) l.
Proof.
  induction l as [|a l IH]; simpl; [reflexivity|].
  rewrite sort_insert_perm. now constructor.
Qed.

Lemma Array_sort_In (l : list A) (a : A) : In a (Array_sort comparefn l) <-> In a l.
Proof.
  split; apply Permutation_in; [|symmetry]; apply Array_sort_perm.
Qed.

Lemma Array_sort_length (l : list A) : length (Array_sort comparefn l) = length l.
Proof. apply Permutation_length, Array_sort_perm. Qed.
End SortFacts.

Lemma sort_insert_sorted (a : Detection) (l : list Detection) :
  StronglySorted score_ge l -> StronglySorted score_ge (sort_insert by_score a l).
Proof.
  induction 1 as [|b l Hl IH Hb]; simpl.
  - repeat constructor.
  - destruct (Qltb 0 (by_score a b)) eqn:E.
    + apply by_score_gt in E. constructor; [exact IH|].
      apply List.Forall_forall. intros c Hc.
      apply (Permutation_in _ (sort_insert_perm by_score a l)) in Hc.
      destruct Hc as [<-|Hc].
      * unfold score_ge. lra.
      * rewrite List.Forall_forall in Hb. now apply Hb.
    + apply by_score_le in E. constructor; [now constructor|].
      constructor; [exact E|].
      eapply List.Forall_impl; [|exact Hb].
      unfold score_ge. intros c Hc. lra.
Qed.

Lemma Array_sort_sorted (l : list Detection) :
  StronglySorted score_ge (Array_sort by_score l).
Proof.
  induction l as [|a l IH]; simpl; [constructor|].
  now apply sort_insert_sorted.
Qed.

(** Stability: the detections of one score keep their order. *)
Lemma sort_insert_has_score (s : Q) (a : Detection) (l : list Detection) :
  List.filter (has_score s) (sort_insert by_score a l)
  = List.filter (has_score s) (a :: l).
Proof.
  induction l as [|b l IH]; [reflexivity|].
  cbn [sort_insert].
  destruct (Qltb 0 (by_score a b)) eqn:E; [|reflexivity].
  apply by_score_gt in E.
  cbn [List.filter] in *. rewrite IH.
  destruct (has_score s a) eqn:Ea, (has_score s b) eqn:Eb; try reflexivity.
  unfold has_score in Ea, Eb. apply Qeq_bool_iff in Ea, Eb. lra.
Qed.

Lemma Array_sort_stable (s : Q) (l : list Detection) :
  List.filter (has_score s) (Array_sort by_score l) = List.filter (has_score s) l.
Proof.
  induction l as [|a l IH]; [reflexivity|].
  cbn [Array_sort fold_right]. rewrite sort_insert_has_score.
  cbn [List.filter]. fold (Array_sort by_score l). now rewrite IH.
Qed.

Lemma has_score_eq (s : Q) (d : Detection) : score d == s -> has_score s d = true.
Proof. apply Qeq_eq_bool. Qed.

Lemma filter_has_score_head (a : Detection) (l l' : list Detection) :
  List.filter (has_score (score a)) (a :: l) = List.filter (has_score (score a)) l' ->
  In a l'.
Proof.
  cbn [List.filter]. rewrite has_score_eq by reflexivity. intros E.
  eapply (proj1 (List.filter_In (has_score (score a)) a l')).
  rewrite <- E. now left.
Qed.

(** Two arrays sorted by descending score that list the detections of
    every score in the same order are the same array. *)
Lemma sorted_stable_unique (l1 l2 : list Detection) :
  StronglySorted score_ge l1 -> StronglySorted score_ge l2 ->
  (forall s, List.filter (has_score s) l1 = List.filter (has_score s) l2) ->
  l1 = l2.
Proof.
  intros H1. revert l2. induction H1 as [|a l1 Hl1 IH Ha]; intros l2 H2 Hf.
  - destruct l2 as [|b l2]; [reflexivity|].
    pose proof (filter_has_score_head b l2 [] (eq_sym (Hf (score b)))) as [].
  - destruct l2 as [|b l2].
    { pose proof (filter_has_score_head a l1 [] (Hf (score a))) as []. }
    inversion H2 as [|? ? Hl2 Hb]; subst.
    assert (Hab : score b <= score a).
    { destruct (filter_has_score_head b l2 (a :: l1) (eq_sym (Hf (score b))))
        as [->|Hin]; [apply Qle_refl|].
      rewrite List.Forall_forall in Ha. exact (Ha b Hin). }
    assert (Hba : score a <= score b).
    { destruct (filter_has_score_head a l1 (b :: l2) (Hf (score a)))
        as [->|Hin]; [apply Qle_refl|].
      rewrite List.Forall_forall in Hb. exact (Hb a Hin). }
    assert (Heq : a = b).
    { pose proof (Hf (score a)) as E. cbn [List.filter] in E.
      rewrite (has_score_eq (score a) a), (has_score_eq (score a) b) in E
        by (reflexivity || lra).
      now injection E. }
    subst b. f_equal. apply IH; [exact Hl2|].
    intros s. specialize (Hf s). cbn [List.filter] in Hf.
    destruct (has_score s a); [now injection Hf | exact Hf].
Qed.

(** So every stable sort by descending score returns what [Array_sort]
    returns. *)
Lemma Array_sort_unique (l l' : list Detection) :
  StronglySorted score_ge l' ->
  (forall s, List.filter (has_score s) l' = List.filter (has_score s) l) ->
  l' = Array_sort by_score l.
Proof.
  intros Hs Hf. apply sorted_stable_unique; [exact Hs | apply Array_sort_sorted |].
  intros s. now rewrite Hf, Array_sort_stable.
Qed.

(** Sorting a sorted array changes nothing. *)
Lemma Array_sort_sorted_id (l : list Detection) :
  StronglySorted score_ge l -> Array_sort by_score l = l.
Proof.
  induction 1 as [|a l Hl IH Ha]; [reflexivity|].
  cbn [Array_sort fold_right]. fold (Array_sort by_score l). rewrite IH.
  destruct l as [|b l]; [reflexivity|]. cbn [sort_insert].
  apply List.Forall_inv in Ha. apply by_score_le in Ha. now rewrite Ha.
Qed.

(* ===================================================================== *)
(** * Facts about sublists *)
(* ===================================================================== *)

Section SublistFacts.
Context {A : Type}.

Lemma filter_sublist (f : A -> bool) (l : list A) : sublist (List.filter f l) l.
Proof.
  induction l as [|a l IH]; simpl; [constructor|].
  destruct (f a); now constructor.
Qed.

Lemma sublist_In (l1 l2 : list A) (a : A) : sublist l1 l2 -> In a l1 -> In a l2.
Proof.
  induction 1 as [|b l1 l2 _ IH|b l1 l2 _ IH]; simpl; tauto.
Qed.

Lemma sublist_Forall (P : A -> Prop) (l1 l2 : list A) :
  sublist l1 l2 -> Forall P l2 -> Forall P l1.
Proof.
  intros Hs H. apply List.Forall_forall. intros a Ha.
  rewrite List.Forall_forall in H. eapply H, sublist_In; eassumption.
Qed.

Lemma sublist_filter (f : A -> bool) (l1 l2 : list A) :
  sublist l1 l2 -> sublist (List.filter f l1) (List.filter f l2).
Proof.
  induction 1 as [|b l1 l2 _ IH|b l1 l2 _ IH]; simpl.
  - constructor.
  - destruct (f b); [now constructor | exact IH].
  - destruct (f b); [now constructor | exact IH].
Qed.

Lemma sublist_StronglySorted (R : A -> A -> Prop) (l1 l2 : list A) :
  sublist l1 l2 -> StronglySorted R l2 -> StronglySorted R l1.
Proof.
  induction 1 as [|b l1 l2 Hs IH|b l1 l2 Hs IH]; intros H.
  - constructor.
  - inversion H as [|? ? Hl Hb]; subst.
    constructor; [now apply IH|]. eapply sublist_Forall; eassumption.
  - inversion H; subst. now apply IH.
Qed.

Lemma filter_all (f : A -> bool) (l : list A) :
  Forall (fun a => f a = true) l -> List.filter f l = l.
Proof.
  induction 1 as [|a l Ha _ IH]; simpl; [reflexivity|].
  now rewrite Ha, IH.
Qed.
End SublistFacts.

(* ===================================================================== *)
(** * Facts about the loops of [applyNMS] *)
(* ===================================================================== *)

Lemma keeps_le (current : Detection) (iouThreshold : Q) (d : Detection) :
  keeps current iouThreshold d = true
  <-> calculateIoU (bbox current) (bbox d) <= iouThreshold.
Proof.
  unfold keeps. rewrite negb_true_iff. apply Qltb_ge.
Qed.

Section SpliceFacts.
Context {A : Type}.

Lemma firstn_length_app (l1 l2 : list A) : firstn (length l1) (l1 ++ l2) = l1.
Proof. induction l1 as [|a l1 IH]; simpl; [now destruct l2 | now rewrite IH]. Qed.

Lemma skipn_length_app (l1 l2 : list A) : skipn (length l1) (l1 ++ l2) = l2.
Proof. induction l1 as [|a l1 IH]; simpl; [reflexivity | exact IH]. Qed.

Lemma firstn_S_length_app (l1 l2 : list A) (d : A) :
  firstn (S (length l1)) (l1 ++ d :: l2) = l1 ++ [d].
Proof.
  induction l1 as [|a l1 IH]; [now destruct l2|].
  cbn [length app]. rewrite firstn_cons, IH. reflexivity.
Qed.

Lemma skipn_S_length_app (l1 l2 : list A) (d : A) :
  skipn (S (length l1)) (l1 ++ d :: l2) = l2.
Proof. induction l1 as [|a l1 IH]; simpl; [reflexivity | exact IH]. Qed.

(** [splice(i, 1)] at the index of [d]. *)
Lemma Array_splice1_middle (l1 l2 : list A) (d : A) :
  Array_splice1 (l1 ++ d :: l2) (length l1) = l1 ++ l2.
Proof.
  unfold Array_splice1. now rewrite firstn_length_app, skipn_S_length_app.
Qed.
End SpliceFacts.

(** The downward loop with [splice] visits the first [n] elements and
    keeps the others. *)
Lemma remove_overlapping_firstn (current : Detection) (thr : Q) (n : nat) :
  forall l : list Detection, (n <= length l)%nat ->
  remove_overlapping current thr n l
  = List.filter (keeps current thr) (firstn n l) ++ skipn n l.
Proof.
  induction n as [|i IH]; intros l Hn; [reflexivity|].
  cbn [remove_overlapping].
  destruct (nth_error l i) as [d|] eqn:Hd.
  2:{ apply nth_error_None in Hd. lia. }
  destruct (nth_error_split l i Hd) as (l1 & l2 & -> & <-).
  rewrite firstn_S_length_app, skipn_S_length_app, List.filter_app.
  cbn [List.filter]. unfold keeps at 2.
  destruct (Qltb thr (calculateIoU (bbox current) (bbox d))); cbn [negb].
  - rewrite Array_splice1_middle, IH by (rewrite length_app; lia).
    now rewrite firstn_length_app, skipn_length_app, app_nil_r.
  - rewrite IH by lia.
    now rewrite firstn_length_app, skipn_length_app, <- app_assoc.
Qed.

Lemma remove_overlapping_filter (current : Detection) (thr : Q) (l : list Detection) :
  remove_overlapping current thr (length l) l = List.filter (keeps current thr) l.
Proof.
  rewrite remove_overlapping_firstn by lia.
  now rewrite firstn_all, skipn_all, app_nil_r.
Qed.

Lemma nms_loop_cons (thr : Q) (current : Detection) (sorted result : list Detection) :
  nms_loop thr (current :: sorted) result
  = if too_large current then nms_loop thr sorted result
    else nms_loop thr (List.filter (keeps current thr) sorted) (result ++ [current]).
Proof.
  simp nms_loop. now rewrite remove_overlapping_filter.
Qed.

(** Induction following the loop: the next [sorted] is the tail, or what
    the accepted head leaves of it. *)
Lemma nms_loop_ind (thr : Q) (P : list Detection -> Prop) :
  P [] ->
  (forall current sorted, too_large current = true -> P sorted -> P (current :: sorted)) ->
  (forall current sorted, too_large current = false ->
     P (List.filter (keeps current thr) sorted) -> P (current :: sorted)) ->
  forall sorted, P sorted.
Proof.
  intros Hnil Hskip Hkeep sorted.
  remember (length sorted) as n eqn:Hn.
  revert sorted Hn. induction n as [n IH] using lt_wf_ind. intros sorted Hn.
  destruct sorted as [|current sorted]; [exact Hnil|].
  destruct (too_large current) eqn:E.
  - apply Hskip; [exact E|]. eapply IH; [|reflexivity]. subst n. simpl. lia.
  - apply Hkeep; [exact E|]. eapply IH; [|reflexivity]. subst n. simpl.
    pose proof (filter_length_le (keeps current thr) sorted). lia.
Qed.

Lemma nms_loop_result (thr : Q) (sorted result : list Detection) :
  nms_loop thr sorted result = result ++ nms_loop thr sorted [].
Proof.
  revert result. induction sorted as [| current sorted E IH | current sorted E IH]
    using (nms_loop_ind thr); intros result.
  - simp nms_loop. now rewrite app_nil_r.
  - rewrite !nms_loop_cons, E. apply IH.
  - rewrite !nms_loop_cons, E. rewrite IH, (IH ([] ++ [current])).
    now rewrite <- !app_assoc.
Qed.

Lemma nms_loop_nil (thr : Q) : nms_loop thr [] [] = [].
Proof. now simp nms_loop. Qed.

Lemma nms_loop_skip (thr : Q) (current : Detection) (sorted : list Detection) :
  too_large current = true ->
  nms_loop thr (current :: sorted) [] = nms_loop thr sorted [].
Proof. intros E. now rewrite nms_loop_cons, E. Qed.

Lemma nms_loop_keep (thr : Q) (current : Detection) (sorted : list Detection) :
  too_large current = false ->
  nms_loop thr (current :: sorted) []
  = current :: nms_loop thr (List.filter (keeps current thr) sorted) [].
Proof. intros E. now rewrite nms_loop_cons, E, nms_loop_result. Qed.

Lemma nms_loop_sublist (thr : Q) (sorted : list Detection) :
  sublist (nms_loop thr sorted []) sorted.
Proof.
  induction sorted as [| current sorted E IH | current sorted E IH]
    using (nms_loop_ind thr).
  - rewrite nms_loop_nil. constructor.
  - rewrite nms_loop_skip by exact E. now constructor.
  - rewrite nms_loop_keep by exact E. constructor.
    etransitivity; [exact IH | apply filter_sublist].
Qed.

Lemma nms_loop_not_large (thr : Q) (sorted : list Detection) :
  Forall (fun d => too_large d = false) (nms_loop thr sorted []).
Proof.
  induction sorted as [| current sorted E IH | current sorted E IH]
    using (nms_loop_ind thr).
  - rewrite nms_loop_nil. constructor.
  - now rewrite nms_loop_skip.
  - rewrite nms_loop_keep by exact E. now constructor.
Qed.

(** Every accepted detection keeps the ones accepted after it. *)
Lemma nms_loop_pairs (thr : Q) (sorted : list Detection) :
  ForallOrdPairs (fun a b => keeps a thr b = true) (nms_loop thr sorted []).
Proof.
  induction sorted as [| current sorted E IH | current sorted E IH]
    using (nms_loop_ind thr).
  - rewrite nms_loop_nil. constructor.
  - now rewrite nms_loop_skip.
  - rewrite nms_loop_keep by exact E. constructor; [|exact IH].
    eapply sublist_Forall; [apply nms_loop_sublist|].
    apply List.Forall_forall. intros d Hd. now apply List.filter_In in Hd.
Qed.

(** A list the loop would produce is left as it is. *)
Lemma nms_loop_fixed (thr : Q) (l : list Detection) :
  Forall (fun d => too_large d = false) l ->
  ForallOrdPairs (fun a b => keeps a thr b = true) l ->
  nms_loop thr l [] = l.
Proof.
  intros Hl Hp. induction Hp as [|a l Ha Hp IH]; [apply nms_loop_nil|].
  inversion Hl as [|? ? Hla Hll]; subst.
  rewrite nms_loop_keep by exact Hla.
  rewrite filter_all by exact Ha. now rewrite IH.
Qed.

Lemma applyNMS_loop (detections : list Detection) (thr : Q) :
  applyNMS detections thr = nms_loop thr (Array_sort by_score detections) [].
Proof.
  unfold applyNMS. destruct detections as [|d l]; [|reflexivity].
  simpl. now rewrite nms_loop_nil.
Qed.

Lemma detectObjects_loop (videoWidth videoHeight : Q) (predictions : list Detection) :
  detectObjects videoWidth videoHeight predictions
  = nms_loop 0.3
      (Array_sort by_score (List.filter (jamaah_filter videoWidth videoHeight) predictions))
      [].
Proof.
  unfold detectObjects. cbv zeta. rewrite applyNMS_loop.
  now rewrite (Array_sort_sorted_id (Array_sort by_score _)) by apply Array_sort_sorted.
Qed.

Lemma detectObjects_sublist (videoWidth videoHeight : Q) (predictions : list Detection) :
  sublist (detectObjects videoWidth videoHeight predictions)
    (Array_sort by_score (List.filter (jamaah_filter videoWidth videoHeight) predictions)).
Proof. rewrite detectObjects_loop. apply nms_loop_sublist. Qed.

Lemma detectObjects_In (videoWidth videoHeight : Q) (predictions : list Detection)
    (d : Detection) :
  In d (detectObjects videoWidth videoHeight predictions) ->
  In d predictions /\ jamaah_filter videoWidth videoHeight d = true.
Proof.
  intros H. apply (sublist_In _ _ _ (detectObjects_sublist _ _ _)) in H.
  apply Array_sort_In in H. now apply List.filter_In in H.
Qed.

(* ===================================================================== *)
(** * Facts about the code on the store *)
(* ===================================================================== *)

Section HeapFacts.
Implicit Types (h : heap) (r : positive) (l : list Detection).

Lemma bind_done {A B : Type} (m : Heap.M A) (f : A -> Heap.M B) h (a : A) h' :
  m h = Heap.Done a h' -> (m ≫= f) h = f a h'.
Proof. intros H. unfold mbind, Heap.M_bind. now rewrite H. Qed.

Lemma read_done h r l : h !! r = Some l -> Heap.read r h = Heap.Done l h.
Proof. intros H. unfold Heap.read. now rewrite H. Qed.

Lemma write_done h r l l' :
  h !! r = Some l -> Heap.write r l' h = Heap.Done tt (<[r := l']> h).
Proof. intros H. unfold Heap.write. now rewrite H. Qed.

Lemma alloc_fresh h : h !! fresh (dom h) = None.
Proof. apply not_elem_of_dom, is_fresh. Qed.

Lemma length_array_done h r l :
  h !! r = Some l -> Heap.length_array r h = Heap.Done (length l) h.
Proof.
  intros H. unfold Heap.length_array. now rewrite (bind_done _ _ _ _ _ (read_done _ _ _ H)).
Qed.

Lemma get_array_done h r l (i : nat) :
  h !! r = Some l -> Heap.get_array r i h = Heap.Done (nth_error l i) h.
Proof.
  intros H. unfold Heap.get_array. now rewrite (bind_done _ _ _ _ _ (read_done _ _ _ H)).
Qed.

Lemma splice_array_done h r l (i : nat) :
  h !! r = Some l ->
  Heap.splice_array r i h = Heap.Done tt (<[r := Array_splice1 l i]> h).
Proof.
  intros H. unfold Heap.splice_array.
  rewrite (bind_done _ _ _ _ _ (read_done _ _ _ H)). now apply write_done with l.
Qed.

Lemma push_array_done h r l (d : Detection) :
  h !! r = Some l -> Heap.push_array r d h = Heap.Done tt (<[r := l ++ [d]]> h).
Proof.
  intros H. unfold Heap.push_array.
  rewrite (bind_done _ _ _ _ _ (read_done _ _ _ H)). now apply write_done with l.
Qed.

Lemma shift_array_cons h r l (d : Detection) :
  h !! r = Some (d :: l) ->
  Heap.shift_array r h = Heap.Done (Some d) (<[r := l]> h).
Proof.
  intros H. unfold Heap.shift_array.
  rewrite (bind_done _ _ _ _ _ (read_done _ _ _ H)).
  now rewrite (bind_done _ _ _ _ _ (write_done _ _ _ l H)).
Qed.

Lemma sort_array_done h r l (comparefn : Detection -> Detection -> Q) :
  h !! r = Some l ->
  Heap.sort_array comparefn r h = Heap.Done r (<[r := Array_sort comparefn l]> h).
Proof.
  intros H. unfold Heap.sort_array.
  rewrite (bind_done _ _ _ _ _ (read_done _ _ _ H)).
  now rewrite (bind_done _ _ _ _ _ (write_done _ _ _ (Array_sort comparefn l) H)).
Qed.

Lemma filter_array_done h r l (f : Detection -> bool) :
  h !! r = Some l ->
  Heap.filter_array f r h
  = Heap.Done (fresh (dom h)) (<[fresh (dom h) := List.filter f l]> h).
Proof.
  intros H. unfold Heap.filter_array.
  now rewrite (bind_done _ _ _ _ _ (read_done _ _ _ H)).
Qed.

Lemma spread_done h r l :
  h !! r = Some l ->
  Heap.spread r h = Heap.Done (fresh (dom h)) (<[fresh (dom h) := l]> h).
Proof.
  intros H. unfold Heap.spread.
  now rewrite (bind_done _ _ _ _ _ (read_done _ _ _ H)).
Qed.

(** The inner loop leaves in [sorted] what [remove_overlapping] computes
    and touches no other array. *)
Lemma for_loop_done (current : Detection) (thr : Q) (sorted : positive) (n : nat) :
  forall h l, h !! sorted = Some l -> (n <= length l)%nat ->
  Heap.for_loop current thr sorted n h
  = Heap.Done tt (<[sorted := remove_overlapping current thr n l]> h).
Proof.
  induction n as [|i IH]; intros h l Hl Hn; cbn [Heap.for_loop remove_overlapping].
  - unfold mret, Heap.M_ret. now rewrite insert_id.
  - rewrite (bind_done _ _ _ _ _ (get_array_done _ _ _ i Hl)).
    destruct (nth_error l i) as [d|] eqn:Hd.
    2:{ apply nth_error_None in Hd. lia. }
    cbv zeta. destruct (Qltb thr (calculateIoU (bbox current) (bbox d))).
    + rewrite (bind_done _ _ _ _ _ (splice_array_done _ _ _ i Hl)).
      rewrite (IH _ (Array_splice1 l i)).
      * now rewrite insert_insert_eq.
      * apply lookup_insert_eq.
      * destruct (nth_error_split l i Hd) as (l1 & l2 & -> & <-).
        rewrite Array_splice1_middle, length_app. lia.
    + unfold mret at 1, Heap.M_ret at 1.
      unfold mbind, Heap.M_bind. apply IH; [exact Hl | lia].
Qed.

(** The loop of [applyNMS] leaves [sorted] empty and [result] as
    [nms_loop] computes it, and touches no other array; the number of
    elements of [sorted] bounds its iterations. *)
Lemma while_loop_done (thr : Q) (sorted result : positive) (fuel : nat) :
  sorted <> result ->
  forall h ls lr,
    h !! sorted = Some ls -> h !! result = Some lr -> (length ls < fuel)%nat ->
    Heap.while_loop fuel thr sorted result h
    = Heap.Done tt (<[result := nms_loop thr ls lr]> (<[sorted := []]> h)).
Proof.
  intros Hne. induction fuel as [|fuel IH]; intros h ls lr Hs Hr Hfuel; [lia|].
  cbn [Heap.while_loop].
  rewrite (bind_done _ _ _ _ _ (length_array_done _ _ _ Hs)).
  destruct ls as [|current ls]; cbn [length Nat.eqb].
  { unfold mret, Heap.M_ret. simp nms_loop.
    now rewrite (insert_id h sorted [] Hs), (insert_id h result lr Hr). }
  rewrite (bind_done _ _ _ _ _ (shift_array_cons _ _ _ _ Hs)).
  rewrite nms_loop_cons.
  destruct (too_large current).
  - rewrite (IH _ ls lr).
    + now rewrite insert_insert_eq.
    + apply lookup_insert_eq.
    + now rewrite lookup_insert_ne.
    + simpl in Hfuel. lia.
  - assert (Hr1 : <[sorted := ls]> h !! result = Some lr)
      by now rewrite lookup_insert_ne.
    rewrite (bind_done _ _ _ _ _ (push_array_done _ _ _ current Hr1)).
    assert (Hs2 : <[result := lr ++ [current]]> (<[sorted := ls]> h) !! sorted = Some ls).
    { rewrite lookup_insert_ne by congruence. apply lookup_insert_eq. }
    rewrite (bind_done _ _ _ _ _ (length_array_done _ _ _ Hs2)).
    rewrite (bind_done _ _ _ _ _ (for_loop_done current thr sorted _ _ _ Hs2 (le_n _))).
    rewrite remove_overlapping_filter.
    rewrite (IH _ (List.filter (keeps current thr) ls) (lr ++ [current])).
    + apply (f_equal (Heap.Done tt)). apply map_eq. intros k.
      destruct (decide (k = result)) as [->|Hk1].
      { now rewrite !lookup_insert_eq. }
      rewrite !(lookup_insert_ne _ result k) by congruence.
      destruct (decide (k = sorted)) as [->|Hk2].
      { do 2 rewrite lookup_insert_eq. reflexivity. }
      rewrite !lookup_insert_ne by congruence. reflexivity.
    + apply lookup_insert_eq.
    + rewrite lookup_insert_ne by congruence. apply lookup_insert_eq.
    + pose proof (filter_length_le (keeps current thr) ls). simpl in Hfuel. lia.
Qed.

(** What a run of [applyNMS] on the store gives: a new array with the
    elements [applyNMS] computes on lists, every array that existed
    unchanged. *)
Lemma applyNMS_done (fuel : nat) (thr : Q) (detections : positive) h l :
  h !! detections = Some l -> (length l < fuel)%nat ->
  exists r h',
    Heap.applyNMS fuel detections thr h = Heap.Done r h' /\
    h' !! r = Some (applyNMS l thr) /\
    h !! r = None /\
    h ⊆ h'.
Proof.
  intros Hl Hfuel. unfold Heap.applyNMS.
  rewrite (bind_done _ _ _ _ _ (length_array_done _ _ _ Hl)).
  destruct l as [|d l]; cbn [length Nat.eqb].
  { exists (fresh (dom h)), (<[fresh (dom h) := []]> h).
    repeat split.
    - apply lookup_insert_eq.
    - apply alloc_fresh.
    - apply insert_subseteq, alloc_fresh. }
  set (l0 := d :: l) in *.
  set (result := fresh (dom h)).
  set (h1 := <[result := []]> h).
  set (copy := fresh (dom h1)).
  set (h2 := <[copy := l0]> h1).
  assert (Hres : h !! result = None) by apply alloc_fresh.
  assert (Hcopy : h1 !! copy = None) by apply alloc_fresh.
  assert (Hne : copy <> result).
  { intros E. rewrite E in Hcopy. unfold h1 in Hcopy.
    rewrite lookup_insert_eq in Hcopy. discriminate Hcopy. }
  assert (Hcopy0 : h !! copy = None).
  { unfold h1 in Hcopy. now rewrite lookup_insert_ne in Hcopy by congruence. }
  assert (Hl1 : h1 !! detections = Some l0).
  { unfold h1. rewrite lookup_insert_ne; [exact Hl | congruence]. }
  assert (E1 : Heap.alloc [] h = Heap.Done result h1) by reflexivity.
  rewrite (bind_done _ _ _ _ _ E1).
  rewrite (bind_done _ _ _ _ _ (spread_done _ _ _ Hl1)). fold copy. fold h2.
  assert (Hc2 : h2 !! copy = Some l0) by apply lookup_insert_eq.
  rewrite (bind_done _ _ _ _ _ (sort_array_done _ _ _ by_score Hc2)).
  set (h3 := <[copy := Array_sort by_score l0]> h2).
  assert (Hc3 : h3 !! copy = Some (Array_sort by_score l0)) by apply lookup_insert_eq.
  assert (Hr3 : h3 !! result = Some []).
  { unfold h3, h2, h1. rewrite !lookup_insert_ne by congruence. apply lookup_insert_eq. }
  rewrite (bind_done _ _ _ _ _
             (while_loop_done thr copy result fuel Hne _ _ _ Hc3 Hr3
                ltac:(rewrite Array_sort_length; exact Hfuel))).
  eexists _, _. split; [reflexivity|]. split; [|split].
  - rewrite lookup_insert_eq. reflexivity.
  - exact Hres.
  - apply insert_subseteq_r; [exact Hres|].
    apply insert_subseteq_r; [exact Hcopy0|].
    unfold h3, h2, h1.
    apply insert_subseteq_r; [exact Hcopy0|].
    apply insert_subseteq_r; [exact Hcopy0|].
    apply insert_subseteq, Hres.
Qed.

(** The same for [detectObjects]. *)
Lemma detectObjects_done (fuel : nat) (videoWidth videoHeight : Q)
    (predictions : positive) h l :
  h !! predictions = Some l -> (length l < fuel)%nat ->
  exists r h',
    Heap.detectObjects fuel videoWidth videoHeight predictions h = Heap.Done r h' /\
    h' !! r = Some (detectObjects videoWidth videoHeight l) /\
    h !! r = None /\
    h ⊆ h'.
Proof.
  intros Hl Hfuel. unfold Heap.detectObjects.
  rewrite (bind_done _ _ _ _ _ (filter_array_done _ _ _ _ Hl)).
  set (jamaah := fresh (dom h)).
  set (filtered := List.filter (jamaah_filter videoWidth videoHeight) l).
  assert (Hj : h !! jamaah = None) by apply alloc_fresh.
  assert (Hj1 : <[jamaah := filtered]> h !! jamaah = Some filtered)
    by apply lookup_insert_eq.
  rewrite (bind_done _ _ _ _ _ (sort_array_done _ _ _ by_score Hj1)).
  rewrite insert_insert_eq.
  set (h2 := <[jamaah := Array_sort by_score filtered]> h).
  assert (Hj2 : h2 !! jamaah = Some (Array_sort by_score filtered))
    by apply lookup_insert_eq.
  assert (Hlen : (length (Array_sort by_score filtered) < fuel)%nat).
  { rewrite Array_sort_length. unfold filtered.
    pose proof (filter_length_le (jamaah_filter videoWidth videoHeight) l). lia. }
  destruct (applyNMS_done fuel 0.3 jamaah h2 _ Hj2 Hlen) as (r & h' & Hrun & Hr & Hnew & Hsub).
  exists r, h'. split; [exact Hrun|]. split; [exact Hr|].
  assert (Hh : h ⊆ h2) by apply insert_subseteq, Hj.
  split.
  - destruct (h !! r) as [x|] eqn:E; [|reflexivity].
    apply (lookup_weaken _ _ _ _ E) in Hh. congruence.
  - now transitivity h2.
Qed.
End HeapFacts.

(* ===================================================================== *)
(** * Stage 1: class and plausibility filter *)
(* ===================================================================== *)

Lemma jamaah_filter_stage1 (videoWidth videoHeight : Q) (pred : Detection) :
  jamaah_filter videoWidth videoHeight pred = true <-> stage1 videoWidth videoHeight pred.
Proof.
  unfold jamaah_filter, stage1.
  destruct pred as [c s [[[x y] width] height]]. cbn [class score bbox box_width box_height].
  destruct (String.eqb_spec c "person") as [->|Hc]; cbn [negb orb].
  2:{ split; [discriminate | intros [H _]; contradiction]. }
  destruct (Qltb s 0.65) eqn:Es.
  { apply Qltb_lt in Es. split; [discriminate|]. intros (_ & H & _). lra. }
  apply Qltb_ge in Es.
  destruct (Qltb 50 height) eqn:Eh.
  2:{ apply Qltb_ge in Eh. rewrite !andb_false_r, andb_false_l.
      split; [discriminate|]. intros (_ & _ & _ & _ & _ & H & _). lra. }
  apply Qltb_lt in Eh.
  rewrite js_div_finite by lra. cbn [num_ltb num_gtb].
  rewrite !andb_true_iff, !Qltb_lt.
  split.
  - intros ((((((H1 & H2) & H3) & _) & H4) & H5) & H6).
    repeat split; try assumption; lra.
  - intros (_ & _ & H1 & H2 & H3 & _ & H5 & H4 & H6).
    repeat split; try assumption; lra.
Qed.

(** C1.  Every detection [detectObjects] returns satisfies all Stage 1
    conditions: class "person", score at least 0.65, width below 40% of
    the frame width, height below 80% of the frame height, width above
    30, height above 50, aspect ratio strictly between 0.3 and 2.5, area
    below 15% of the frame area.  A detection that fails one of them is
    never in the output. *)
Theorem detectObjects_stage1 (frameWidth frameHeight : Q)
    (predictions : list Detection) (d : Detection) :
  (In d (detectObjects frameWidth frameHeight predictions) ->
   stage1 frameWidth frameHeight d) /\
  (~ stage1 frameWidth frameHeight d ->
   ~ In d (detectObjects frameWidth frameHeight predictions)).
Proof.
  assert (H : In d (detectObjects frameWidth frameHeight predictions) ->
              stage1 frameWidth frameHeight d).
  { intros Hd. apply detectObjects_In in Hd. now apply jamaah_filter_stage1. }
  split; [exact H | intros Hn Hd; apply Hn, H, Hd].
Qed.

Lemma detectObjects_stage1_witness :
  stage1 640 480 (person 0.9 (10, 10, 50, 100)) /\
  ~ In (car 0.99 (10, 10, 50, 100))
      (detectObjects 640 480 [car 0.99 (10, 10, 50, 100); person 0.9 (10, 10, 50, 100)]).
Proof.
  split.
  - apply (proj1 (detectObjects_stage1 640 480 [person 0.9 (10, 10, 50, 100)]
                    (person 0.9 (10, 10, 50, 100)))).
    simpl. left. reflexivity.
  - apply (proj2 (detectObjects_stage1 640 480
                    [car 0.99 (10, 10, 50, 100); person 0.9 (10, 10, 50, 100)]
                    (car 0.99 (10, 10, 50, 100)))).
    unfold stage1. simpl. intros [H _]. discriminate H.
Defined.

(* ===================================================================== *)
(** * Intersection over union *)
(* ===================================================================== *)

Lemma Qmax_0_neg (a : Q) : a < 0 -> Qmax 0 a == 0.
Proof. intros H. apply Q.max_l. lra. Qed.

Lemma Qmax_0_nonneg (a : Q) : 0 <= a -> Qmax 0 a == a.
Proof. intros H. now apply Q.max_r. Qed.

(** The product [Qmax 0 w * Qmax 0 h] is the area of the intersection
    rectangle, and zero when it has a negative side. *)
Lemma interArea_cases (w h : Q) :
  Qmax 0 w * Qmax 0 h == if Qltb w 0 || Qltb h 0 then 0 else w * h.
Proof.
  destruct (Qltb w 0) eqn:Ew; cbn [orb].
  - apply Qltb_lt in Ew. rewrite (Qmax_0_neg w) by exact Ew. ring.
  - apply Qltb_ge in Ew. rewrite (Qmax_0_nonneg w) by exact Ew.
    destruct (Qltb h 0) eqn:Eh.
    + apply Qltb_lt in Eh. rewrite (Qmax_0_neg h) by exact Eh. ring.
    + apply Qltb_ge in Eh. rewrite (Qmax_0_nonneg h) by exact Eh. reflexivity.
Qed.

(** An intersection of positive area lies in both boxes, so the union is
    positive as well. *)
Lemma union_pos (wA hA wB hB w h : Q) :
  0 < w -> 0 < h -> w <= wA -> w <= wB -> h <= hA -> h <= hB ->
  0 < wA * hA + wB * hB - w * h.
Proof.
  intros Hw Hh HwA HwB HhA HhB.
  assert (H1 : w * h <= wA * hA) by nra.
  assert (H2 : 0 < wB * hB) by nra.
  lra.
Qed.

(** C5.  [calculateIoU] is the axis-aligned intersection over union of
    the specification, for all boxes: the intersection rectangle runs from
    the larger left and top edges to the smaller right and bottom edges,
    its area is zero when its width or height is negative, the union is
    the two areas minus the intersection, and the result is zero when the
    union is zero. *)
Theorem calculateIoU_spec (boxA boxB : BBox) :
  calculateIoU boxA boxB == iou_spec boxA boxB.
Proof.
  destruct boxA as [[[xA yA] wA] hA], boxB as [[[xB yB] wB] hB].
  unfold calculateIoU, iou_spec. cbv zeta.
  set (w := Qmin (xA + wA) (xB + wB) - Qmax xA xB).
  set (h := Qmin (yA + hA) (yB + hB) - Qmax yA yB).
  assert (HwA : w <= wA).
  { unfold w. pose proof (Q.le_min_l (xA + wA) (xB + wB)).
    pose proof (Q.le_max_l xA xB). lra. }
  assert (HwB : w <= wB).
  { unfold w. pose proof (Q.le_min_r (xA + wA) (xB + wB)).
    pose proof (Q.le_max_r xA xB). lra. }
  assert (HhA : h <= hA).
  { unfold h. pose proof (Q.le_min_l (yA + hA) (yB + hB)).
    pose proof (Q.le_max_l yA yB). lra. }
  assert (HhB : h <= hB).
  { unfold h. pose proof (Q.le_min_r (yA + hA) (yB + hB)).
    pose proof (Q.le_max_r yA yB). lra. }
  pose proof (interArea_cases w h) as Hi.
  set (inter := Qmax 0 w * Qmax 0 h) in *.
  remember (if Qltb w 0 || Qltb h 0 then 0 else w * h) as inter' eqn:Hinter'.
  assert (Hu : wA * hA + wB * hB - inter == wA * hA + wB * hB - inter')
    by now rewrite Hi.
  rewrite (Qltb_compat 0 0 _ _ (Qeq_refl 0) Hu).
  set (union := wA * hA + wB * hB - inter') in *.
  destruct (Qltb 0 union) eqn:Epos.
  - apply Qltb_lt in Epos.
    destruct (Qeq_bool union 0) eqn:Ez.
    + apply Qeq_bool_iff in Ez. lra.
    + now rewrite Hu, Hi.
  - apply Qltb_ge in Epos.
    destruct (Qeq_bool union 0) eqn:Ez; [reflexivity|].
    apply Qeq_bool_neq in Ez.
    assert (Hz : inter' == 0).
    { destruct (Qltb w 0) eqn:Ew; [now subst inter'|].
      destruct (Qltb h 0) eqn:Eh; [now subst inter'|].
      cbn [orb] in Hinter'.
      apply Qltb_ge in Ew, Eh.
      destruct (Qlt_le_dec 0 w) as [Hw|Hw].
      2:{ subst inter'. assert (w == 0) as -> by lra. ring. }
      destruct (Qlt_le_dec 0 h) as [Hh|Hh].
      2:{ subst inter'. assert (h == 0) as -> by lra. ring. }
      exfalso. pose proof (union_pos wA hA wB hB w h Hw Hh HwA HwB HhA HhB) as Hp.
      unfold union in Epos. subst inter'. lra. }
    rewrite Hz. unfold Qdiv. ring.
Qed.

Lemma iou_quotient_compat (i1 i2 u1 u2 : Q) :
  i1 == i2 -> u1 == u2 ->
  (if Qltb 0 u1 then i1 / u1 else 0) == (if Qltb 0 u2 then i2 / u2 else 0).
Proof.
  intros Hi Hu. rewrite (Qltb_compat 0 0 u1 u2 (Qeq_refl 0) Hu).
  destruct (Qltb 0 u2); [|reflexivity]. now rewrite Hi, Hu.
Qed.

Lemma calculateIoU_sym (boxA boxB : BBox) :
  calculateIoU boxA boxB == calculateIoU boxB boxA.
Proof.
  destruct boxA as [[[xA yA] wA] hA], boxB as [[[xB yB] wB] hB].
  unfold calculateIoU. cbv zeta.
  assert (Hi : Qmax 0 (Qmin (xA + wA) (xB + wB) - Qmax xA xB)
               * Qmax 0 (Qmin (yA + hA) (yB + hB) - Qmax yA yB)
               == Qmax 0 (Qmin (xB + wB) (xA + wA) - Qmax xB xA)
                  * Qmax 0 (Qmin (yB + hB) (yA + hA) - Qmax yB yA)).
  { now rewrite (Q.min_comm (xA + wA)), (Q.max_comm xA),
      (Q.min_comm (yA + hA)), (Q.max_comm yA). }
  apply iou_quotient_compat; [exact Hi|]. rewrite Hi. ring.
Qed.

(* ===================================================================== *)
(** * Non-maximum suppression *)
(* ===================================================================== *)

Section OrderedPairs.
Context {A : Type} (R : A -> A -> Prop).

(** [ForallOrdPairs] read by index. *)
Lemma ForallOrdPairs_nth (l : list A) :
  ForallOrdPairs R l ->
  forall i j a b, (i < j)%nat ->
    nth_error l i = Some a -> nth_error l j = Some b -> R a b.
Proof.
  induction 1 as [|c l Hc _ IH]; intros i j a b Hij Ha Hb.
  - now destruct i.
  - destruct j as [|j]; [lia|]. cbn [nth_error] in Hb.
    destruct i as [|i]; cbn [nth_error] in Ha.
    + injection Ha as <-. rewrite List.Forall_forall in Hc.
      eapply Hc, nth_error_In, Hb.
    + eapply (IH i j); [lia | eassumption..].
Qed.

(** Two elements in order form a sublist, and conversely. *)
Lemma nth_sublist_pair (l : list A) :
  forall i j a b, (i < j)%nat ->
    nth_error l i = Some a -> nth_error l j = Some b -> sublist [a; b] l.
Proof.
  induction l as [|c l IH]; intros i j a b Hij Ha Hb; [now destruct i|].
  destruct j as [|j]; [lia|]. cbn [nth_error] in Hb.
  destruct i as [|i]; cbn [nth_error] in Ha.
  - injection Ha as <-. constructor.
    apply singleton_sublist_l, list_elem_of_In. eapply nth_error_In, Hb.
  - constructor. eapply (IH i j); [lia | eassumption..].
Qed.

Lemma sublist_pair_nth (l : list A) (a b : A) :
  sublist [a; b] l ->
  exists i j, (i < j)%nat /\ nth_error l i = Some a /\ nth_error l j = Some b.
Proof.
  induction l as [|c l IH]; intros H; [inversion H|].
  inversion H as [|? ? ? Hs|? ? ? Hs]; subst.
  - apply singleton_sublist_l, list_elem_of_In, In_nth_error in Hs as [j Hj].
    exists 0%nat, (S j). repeat split; [lia | exact Hj].
  - destruct (IH Hs) as (i & j & Hij & Hi & Hj).
    exists (S i), (S j). repeat split; [lia | assumption..].
Qed.
End OrderedPairs.

(** C2.  Any two distinct detections of the output of [detectObjects]
    have an intersection over union of at most 0.3. *)
Theorem detectObjects_iou (frameWidth frameHeight : Q) (predictions : list Detection)
    (i j : nat) (a b : Detection) :
  i <> j ->
  nth_error (detectObjects frameWidth frameHeight predictions) i = Some a ->
  nth_error (detectObjects frameWidth frameHeight predictions) j = Some b ->
  calculateIoU (bbox a) (bbox b) <= 0.3.
Proof.
  intros Hij Ha Hb.
  pose proof (nms_loop_pairs 0.3
    (Array_sort by_score
       (List.filter (jamaah_filter frameWidth frameHeight) predictions))) as Hp.
  rewrite <- detectObjects_loop in Hp.
  destruct (Nat.lt_total i j) as [Hlt|[Heq|Hlt]]; [|contradiction|].
  - apply keeps_le. exact (ForallOrdPairs_nth _ _ Hp i j a b Hlt Ha Hb).
  - rewrite calculateIoU_sym. apply keeps_le.
    exact (ForallOrdPairs_nth _ _ Hp j i b a Hlt Hb Ha).
Qed.

Lemma detectObjects_iou_witness :
  calculateIoU (10, 10, 50, 100) (50, 10, 50, 100) <= 0.3.
Proof.
  apply (detectObjects_iou 640 480
           [person 0.8 (50, 10, 50, 100); person 0.9 (10, 10, 50, 100)]
           0 1 (person 0.9 (10, 10, 50, 100)) (person 0.8 (50, 10, 50, 100))).
  - lia.
  - reflexivity.
  - reflexivity.
Defined.

Lemma detectObjects_StronglySorted (videoWidth videoHeight : Q)
    (predictions : list Detection) :
  StronglySorted score_ge (detectObjects videoWidth videoHeight predictions).
Proof.
  eapply sublist_StronglySorted;
    [apply detectObjects_sublist | apply Array_sort_sorted].
Qed.

(** C3.  The output of [detectObjects] is sorted by descending score, and
    detections of equal score keep the order they had in the input: the
    output detections of any one score are, in order, among the input
    detections of that score, so two of them stand in the input in the
    order they have in the output. *)
Theorem detectObjects_sorted (frameWidth frameHeight : Q) (predictions : list Detection) :
  StronglySorted score_ge (detectObjects frameWidth frameHeight predictions) /\
  (forall s : Q,
     sublist (List.filter (has_score s) (detectObjects frameWidth frameHeight predictions))
             (List.filter (has_score s) predictions)) /\
  (forall i j a b, (i < j)%nat ->
     nth_error (detectObjects frameWidth frameHeight predictions) i = Some a ->
     nth_error (detectObjects frameWidth frameHeight predictions) j = Some b ->
     score a == score b ->
     exists i' j', (i' < j')%nat /\
       nth_error predictions i' = Some a /\ nth_error predictions j' = Some b).
Proof.
  pose proof (detectObjects_sublist frameWidth frameHeight predictions) as Hsub.
  assert (Hstable : forall s : Q,
    sublist (List.filter (has_score s) (detectObjects frameWidth frameHeight predictions))
            (List.filter (has_score s) predictions)).
  { intros s. etransitivity; [apply sublist_filter, Hsub|].
    rewrite Array_sort_stable. apply sublist_filter, filter_sublist. }
  split; [|split].
  - apply detectObjects_StronglySorted.
  - exact Hstable.
  - intros i j a b Hij Ha Hb Hs.
    apply sublist_pair_nth.
    pose proof (nth_sublist_pair _ i j a b Hij Ha Hb) as Hab.
    apply (sublist_filter (has_score (score a))) in Hab.
    cbn [List.filter] in Hab. unfold has_score in Hab at 1 2.
    rewrite Qeq_bool_refl in Hab.
    rewrite (Qeq_eq_bool (score b) (score a)) in Hab by now symmetry.
    etransitivity; [exact Hab|].
    etransitivity; [apply Hstable | apply filter_sublist].
Qed.

Lemma too_large_wide (d : Detection) : too_large d = true <-> wide d.
Proof.
  unfold too_large, wide. destruct d as [c s [[[x y] width] height]].
  cbn [bbox box_width box_height]. now rewrite andb_true_iff, Qltb_lt.
Qed.

(** C4.  A detection with width above 200 and aspect ratio above 1.8 is
    discarded by the loop of [applyNMS] when it is the current candidate,
    the best of those that remain, and the loop goes on with the others;
    it is never in the result of [applyNMS], whatever the detections
    given to it, nor in the output of [detectObjects]. *)
Theorem applyNMS_rejects_wide (d : Detection) :
  wide d ->
  (forall iouThreshold sorted result,
     nms_loop iouThreshold (d :: sorted) result = nms_loop iouThreshold sorted result) /\
  (forall detections iouThreshold, ~ In d (applyNMS detections iouThreshold)) /\
  (forall frameWidth frameHeight predictions,
     ~ In d (detectObjects frameWidth frameHeight predictions)).
Proof.
  intros Hw. apply too_large_wide in Hw.
  assert (H : forall l thr, ~ In d (nms_loop thr l [])).
  { intros l thr Hd. pose proof (nms_loop_not_large thr l) as Hl.
    rewrite List.Forall_forall in Hl. apply Hl in Hd. congruence. }
  split; [|split].
  - intros thr sorted result. now rewrite nms_loop_cons, Hw.
  - intros detections thr. rewrite applyNMS_loop. apply H.
  - intros fw fh predictions. rewrite detectObjects_loop. apply H.
Qed.

Lemma applyNMS_rejects_wide_witness :
  applyNMS [person 0.8 (300, 300, 60, 120); person 0.95 (0, 0, 250, 125)] 0.3
  = [person 0.8 (300, 300, 60, 120)] /\
  ~ In (person 0.95 (0, 0, 250, 125))
      (applyNMS [person 0.8 (300, 300, 60, 120); person 0.95 (0, 0, 250, 125)] 0.3) /\
  ~ In (person 0.95 (0, 0, 250, 125))
      (detectObjects 1920 1080
         [person 0.8 (300, 300, 60, 120); person 0.95 (0, 0, 250, 125)]).
Proof.
  assert (Hw : wide (person 0.95 (0, 0, 250, 125))).
  { split; [reflexivity | vm_compute; reflexivity]. }
  destruct (applyNMS_rejects_wide (person 0.95 (0, 0, 250, 125)) Hw) as (H1 & H2 & H3).
  split; [|split].
  - change (nms_loop 0.3
              [person 0.95 (0, 0, 250, 125); person 0.8 (300, 300, 60, 120)] []
            = [person 0.8 (300, 300, 60, 120)]).
    rewrite H1. reflexivity.
  - apply H2.
  - apply H3.
Defined.

Lemma detectObjects_sorted_witness :
  exists i' j', (i' < j')%nat /\
    nth_error [person 0.9 (300, 10, 50, 100); car 0.9 (0, 0, 10, 10);
               person 0.9 (10, 10, 50, 100)] i'
    = Some (person 0.9 (300, 10, 50, 100)) /\
    nth_error [person 0.9 (300, 10, 50, 100); car 0.9 (0, 0, 10, 10);
               person 0.9 (10, 10, 50, 100)] j'
    = Some (person 0.9 (10, 10, 50, 100)).
Proof.
  apply (proj2 (proj2 (detectObjects_sorted 640 480
           [person 0.9 (300, 10, 50, 100); car 0.9 (0, 0, 10, 10);
            person 0.9 (10, 10, 50, 100)])) 0%nat 1%nat).
  - lia.
  - reflexivity.
  - reflexivity.
  - reflexivity.
Defined.

(* ===================================================================== *)
(** * Scenarios *)
(* ===================================================================== *)

(** C7 as stated fails on [wide_best] and [square_second].  Both pass
    Stage 1, their scores are 0.9 and 0.8, their intersection over union
    is 0.5, and the output is the detection of score 0.8 alone: the loop
    of [applyNMS] drops the wide box before it suppresses anything. *)
Lemma two_overlapping_counterexample :
  stage1 1920 1080 wide_best /\
  stage1 1920 1080 square_second /\
  score wide_best == 0.9 /\
  score square_second == 0.8 /\
  calculateIoU (bbox wide_best) (bbox square_second) == 0.5 /\
  detectObjects 1920 1080 [wide_best; square_second] = [square_second] /\
  detectObjects 1920 1080 [square_second; wide_best] = [square_second] /\
  ~ In wide_best (detectObjects 1920 1080 [wide_best; square_second]).
Proof.
  assert (E : detectObjects 1920 1080 [wide_best; square_second] = [square_second])
    by reflexivity.
  refine (conj _ (conj _ (conj _ (conj _ (conj _ (conj _ (conj _ _))))))).
  - apply jamaah_filter_stage1. reflexivity.
  - apply jamaah_filter_stage1. reflexivity.
  - reflexivity.
  - reflexivity.
  - vm_compute. reflexivity.
  - exact E.
  - reflexivity.
  - rewrite E. intros [H|[]]. vm_compute in H. discriminate H.
Qed.

Lemma keeps_above (a b : Detection) (thr : Q) :
  thr < calculateIoU (bbox a) (bbox b) -> keeps a thr b = false.
Proof.
  intros H. unfold keeps. apply negb_false_iff. now apply Qltb_lt.
Qed.

(** C7, amended.  Two persons that pass Stage 1, of scores 0.9 and 0.8,
    whose boxes have an intersection over union of 0.5: when the
    detection of score 0.9 is not a wide box (width above 200 and aspect
    ratio above 1.8), the output is that detection alone, in whichever
    order the two arrive. *)
Theorem two_overlapping_keeps_best (frameWidth frameHeight : Q) (a b : Detection) :
  stage1 frameWidth frameHeight a ->
  stage1 frameWidth frameHeight b ->
  score a == 0.9 ->
  score b == 0.8 ->
  calculateIoU (bbox a) (bbox b) == 0.5 ->
  ~ wide a ->
  detectObjects frameWidth frameHeight [a; b] = [a] /\
  detectObjects frameWidth frameHeight [b; a] = [a].
Proof.
  intros Ha Hb Hsa Hsb Hiou Hw.
  apply jamaah_filter_stage1 in Ha, Hb.
  assert (Hl : too_large a = false).
  { destruct (too_large a) eqn:E; [|reflexivity]. apply too_large_wide in E. contradiction. }
  assert (Hab : Qltb 0 (by_score a b) = false) by (apply by_score_le; lra).
  assert (Hba : Qltb 0 (by_score b a) = true) by (apply by_score_gt; lra).
  assert (Hk : keeps a 0.3 b = false) by (apply keeps_above; lra).
  assert (Hloop : nms_loop 0.3 [a; b] [] = [a]).
  { rewrite nms_loop_keep by exact Hl. cbn [List.filter]. rewrite Hk.
    now rewrite nms_loop_nil. }
  split; rewrite detectObjects_loop; cbn [List.filter]; rewrite Ha, Hb;
    cbn [Array_sort fold_right sort_insert].
  - now rewrite Hab.
  - now rewrite Hba.
Qed.

Lemma two_overlapping_keeps_best_witness :
  detectObjects 1920 1080 [person 0.9 (0, 0, 200, 400); person 0.8 (0, 0, 200, 200)]
  = [person 0.9 (0, 0, 200, 400)] /\
  detectObjects 1920 1080 [person 0.8 (0, 0, 200, 200); person 0.9 (0, 0, 200, 400)]
  = [person 0.9 (0, 0, 200, 400)].
Proof.
  apply (two_overlapping_keeps_best 1920 1080
           (person 0.9 (0, 0, 200, 400)) (person 0.8 (0, 0, 200, 200))).
  - apply jamaah_filter_stage1. reflexivity.
  - apply jamaah_filter_stage1. reflexivity.
  - reflexivity.
  - reflexivity.
  - vm_compute. reflexivity.
  - intros [H _]. vm_compute in H. discriminate H.
Defined.

(* ===================================================================== *)
(** * Malformed geometry, empty input, fixed point *)
(* ===================================================================== *)

Lemma degenerateb_spec (d : Detection) : degenerateb d = true <-> degenerate d.
Proof.
  unfold degenerateb, degenerate. now rewrite orb_true_iff, !Qle_bool_iff.
Qed.

Lemma jamaah_filter_degenerate (videoWidth videoHeight : Q) (d : Detection) :
  degenerate d -> jamaah_filter videoWidth videoHeight d = false.
Proof.
  intros Hd. destruct (jamaah_filter videoWidth videoHeight d) eqn:E; [|reflexivity].
  apply jamaah_filter_stage1 in E. unfold stage1 in E. cbv zeta in E.
  destruct E as (_ & _ & _ & _ & Hw & Hh & _). destruct Hd; lra.
Qed.

Lemma filter_filter_absorb {A : Type} (f g : A -> bool) (l : list A) :
  (forall a, f a = true -> g a = true) ->
  List.filter f (List.filter g l) = List.filter f l.
Proof.
  intros Hfg. induction l as [|a l IH]; [reflexivity|]. cbn [List.filter].
  destruct (g a) eqn:Eg; cbn [List.filter]; rewrite IH; [reflexivity|].
  destruct (f a) eqn:Ef; [|reflexivity]. apply Hfg in Ef. congruence.
Qed.

(** C8.  Detections with a zero or negative width or height raise nothing
    and do not stop the batch.  The filter callback answers [false] for
    each of them (with height 0 the aspect ratio is [Infinity],
    [-Infinity] or [NaN], and every test on it is evaluated), so none of
    them is in the output; the output is the one [detectObjects] computes
    for the same batch without them; and the run on the store ends
    normally, with that output, whatever the batch holds. *)
Theorem detectObjects_degenerate (frameWidth frameHeight : Q)
    (predictions : list Detection) :
  (forall d, degenerate d ->
     jamaah_filter frameWidth frameHeight d = false /\
     ~ In d (detectObjects frameWidth frameHeight predictions)) /\
  detectObjects frameWidth frameHeight predictions
  = detectObjects frameWidth frameHeight
      (List.filter (fun d => negb (degenerateb d)) predictions) /\
  (forall (fuel : nat) (h : heap) (p : positive),
     h !! p = Some predictions -> (length predictions < fuel)%nat ->
     exists r h',
       Heap.detectObjects fuel frameWidth frameHeight p h = Heap.Done r h' /\
       h' !! r = Some (detectObjects frameWidth frameHeight
                         (List.filter (fun d => negb (degenerateb d)) predictions))).
Proof.
  assert (Hsame : detectObjects frameWidth frameHeight predictions
                  = detectObjects frameWidth frameHeight
                      (List.filter (fun d => negb (degenerateb d)) predictions)).
  { unfold detectObjects. cbv zeta. rewrite filter_filter_absorb; [reflexivity|].
    intros d Hd. apply negb_true_iff. destruct (degenerateb d) eqn:E; [|reflexivity].
    apply degenerateb_spec in E.
    rewrite (jamaah_filter_degenerate _ _ d E) in Hd. discriminate Hd. }
  split; [|split].
  - intros d Hd. pose proof (jamaah_filter_degenerate frameWidth frameHeight d Hd) as Hf.
    split; [exact Hf|]. intros Hin. apply detectObjects_In in Hin. destruct Hin. congruence.
  - exact Hsame.
  - intros fuel h p Hp Hfuel.
    destruct (detectObjects_done fuel frameWidth frameHeight p h predictions Hp Hfuel)
      as (r & h' & Hrun & Hr & _).
    exists r, h'. split; [exact Hrun|]. now rewrite <- Hsame.
Qed.

Lemma detectObjects_degenerate_witness :
  jamaah_filter 640 480 (person 0.9 (10, 10, 50, 0)) = false /\
  ~ In (person 0.9 (10, 10, 50, 0))
      (detectObjects 640 480
         [person 0.9 (10, 10, 50, 0); person 0.9 (10, 10, -50, -100);
          person 0.8 (10, 10, 50, 100)]).
Proof.
  apply (proj1 (detectObjects_degenerate 640 480
           [person 0.9 (10, 10, 50, 0); person 0.9 (10, 10, -50, -100);
            person 0.8 (10, 10, 50, 100)]) (person 0.9 (10, 10, 50, 0))).
  right. simpl. lra.
Defined.

Example detectObjects_degenerate_batch :
  detectObjects 640 480
    [person 0.9 (10, 10, 50, 0); person 0.9 (10, 10, -50, -100);
     person 0.9 (10, 10, 0, 0); person 0.8 (10, 10, 50, 100)]
  = [person 0.8 (10, 10, 50, 100)].
Proof. reflexivity. Qed.

(** C9.  With no prediction [detectObjects] returns the empty array, for
    all frame dimensions, as [applyNMS] does for an empty array; on the
    store the run ends normally with a new empty array. *)
Theorem detectObjects_empty (frameWidth frameHeight iouThreshold : Q)
    (fuel : nat) (predictions : positive) (h : heap) :
  detectObjects frameWidth frameHeight [] = [] /\
  applyNMS [] iouThreshold = [] /\
  (h !! predictions = Some [] ->
   exists r h',
     Heap.detectObjects fuel frameWidth frameHeight predictions h = Heap.Done r h' /\
     h' !! r = Some []).
Proof.
  split; [reflexivity|]. split; [reflexivity|].
  intros Hp. unfold Heap.detectObjects.
  rewrite (bind_done _ _ _ _ _ (filter_array_done _ _ _ _ Hp)). cbn [List.filter].
  assert (Hj : <[fresh (dom h) := []]> h !! fresh (dom h) = Some [])
    by apply lookup_insert_eq.
  rewrite (bind_done _ _ _ _ _ (sort_array_done _ _ _ by_score Hj)).
  cbn [Array_sort fold_right]. rewrite insert_insert_eq. unfold Heap.applyNMS.
  rewrite (bind_done _ _ _ _ _ (length_array_done _ _ _ Hj)). cbn [length Nat.eqb].
  eexists _, _. split; [reflexivity|]. apply lookup_insert_eq.
Qed.

Lemma detectObjects_empty_witness :
  exists r h',
    Heap.detectObjects 0 640 480 1%positive {[1%positive := []]} = Heap.Done r h' /\
    h' !! r = Some [].
Proof.
  apply (proj2 (proj2 (detectObjects_empty 640 480 0.3 0 1%positive {[1%positive := []]}))).
  reflexivity.
Defined.

(** C10.  The output of [detectObjects] is a fixed point: given its own
    output and the same frame dimensions, [detectObjects] returns it
    unchanged. *)
Theorem detectObjects_idempotent (frameWidth frameHeight : Q)
    (predictions : list Detection) :
  detectObjects frameWidth frameHeight (detectObjects frameWidth frameHeight predictions)
  = detectObjects frameWidth frameHeight predictions.
Proof.
  set (out := detectObjects frameWidth frameHeight predictions).
  rewrite (detectObjects_loop _ _ out).
  rewrite filter_all.
  2:{ apply List.Forall_forall. intros d Hd. now apply detectObjects_In in Hd. }
  rewrite Array_sort_sorted_id by apply detectObjects_StronglySorted.
  apply nms_loop_fixed; unfold out; rewrite detectObjects_loop.
  - apply nms_loop_not_large.
  - apply nms_loop_pairs.
Qed.

(** C6.  [detectObjects] is deterministic and has no side effect on the
    arrays it is given: run on a store where [predictions] holds the
    input, it returns a new array and leaves every array that existed as
    it was; run again on the store it left, it returns another new array,
    and both hold the same sequence, the one the list function
    computes. *)
Theorem detectObjects_deterministic (fuel : nat) (frameWidth frameHeight : Q)
    (predictions : positive) (h : heap) (input : list Detection) :
  h !! predictions = Some input ->
  (length input < fuel)%nat ->
  exists r1 h1 r2 h2,
    Heap.detectObjects fuel frameWidth frameHeight predictions h = Heap.Done r1 h1 /\
    Heap.detectObjects fuel frameWidth frameHeight predictions h1 = Heap.Done r2 h2 /\
    h ⊆ h1 /\ h1 ⊆ h2 /\
    h2 !! predictions = Some input /\
    h2 !! r1 = Some (detectObjects frameWidth frameHeight input) /\
    h2 !! r2 = Some (detectObjects frameWidth frameHeight input).
Proof.
  intros Hin Hfuel.
  destruct (detectObjects_done fuel frameWidth frameHeight predictions h input Hin Hfuel)
    as (r1 & h1 & Hrun1 & Hr1 & _ & Hsub1).
  assert (Hin1 : h1 !! predictions = Some input) by exact (lookup_weaken _ _ _ _ Hin Hsub1).
  destruct (detectObjects_done fuel frameWidth frameHeight predictions h1 input Hin1 Hfuel)
    as (r2 & h2 & Hrun2 & Hr2 & _ & Hsub2).
  exists r1, h1, r2, h2.
  repeat split; try assumption.
  - exact (lookup_weaken _ _ _ _ Hin1 Hsub2).
  - exact (lookup_weaken _ _ _ _ Hr1 Hsub2).
Qed.

Lemma detectObjects_deterministic_witness :
  exists r1 h1 r2 h2,
    Heap.detectObjects 5 640 480 1%positive {[1%positive := frame_predictions]}
    = Heap.Done r1 h1 /\
    Heap.detectObjects 5 640 480 1%positive h1 = Heap.Done r2 h2 /\
    {[1%positive := frame_predictions]} ⊆ h1 /\ h1 ⊆ h2 /\
    h2 !! 1%positive = Some frame_predictions /\
    h2 !! r1 = Some (detectObjects 640 480 frame_predictions) /\
    h2 !! r2 = Some (detectObjects 640 480 frame_predictions).
Proof.
  apply (detectObjects_deterministic 5 640 480 1%positive
           {[1%positive := frame_predictions]} frame_predictions).
  - reflexivity.
  - simpl. lia.
Defined.

Example detectObjects_frame :
  detectObjects 640 480 frame_predictions
  = [person 0.9 (10, 10, 50, 100); person 0.8 (50, 10, 50, 100)].
Proof. reflexivity. Qed.

Example detectObjects_frame_heap :
  match Heap.detectObjects 5 640 480 1%positive {[1%positive := frame_predictions]} with
  | Heap.Done r h => h !! r
  | _ => None
  end = Some [person 0.9 (10, 10, 50, 100); person 0.8 (50, 10, 50, 100)].
Proof. vm_compute. reflexivity. Qed.

(* ===================================================================== *)
(** * Further properties of [calculateIoU] *)
(* ===================================================================== *)









(** Boxes that lie side by side or one above the other, touching at most,
    have intersection over union 0. *)
Theorem calculateIoU_disjoint (xA yA wA hA xB yB wB hB : Q) :
  xA + wA <= xB \/ xB + wB <= xA \/ yA + hA <= yB \/ yB + hB <= yA ->
  calculateIoU (xA, yA, wA, hA) (xB, yB, wB, hB) == 0.
Proof.
  intros Hd. unfold calculateIoU. cbv zeta.
  assert (Ei : Qmax 0 (Qmin (xA + wA) (xB + wB) - Qmax xA xB)
               * Qmax 0 (Qmin (yA + hA) (yB + hB) - Qmax yA yB) == 0).
  { pose proof (Q.le_min_l (xA + wA) (xB + wB)).
    pose proof (Q.le_min_r (xA + wA) (xB + wB)).
    pose proof (Q.le_max_l xA xB). pose proof (Q.le_max_r xA xB).
    pose proof (Q.le_min_l (yA + hA) (yB + hB)).
    pose proof (Q.le_min_r (yA + hA) (yB + hB)).
    pose proof (Q.le_max_l yA yB). pose proof (Q.le_max_r yA yB).
    destruct Hd as [Hd|[Hd|[Hd|Hd]]].
    1,2: rewrite (Q.max_l 0 (Qmin (xA + wA) (xB + wB) - Qmax xA xB)) by lra; ring.
    1,2: rewrite (Q.max_l 0 (Qmin (yA + hA) (yB + hB) - Qmax yA yB)) by lra; ring. }
  rewrite (iou_quotient_compat _ 0 _ (wA * hA + wB * hB) Ei) by (rewrite Ei; ring).
  destruct (Qltb 0 (wA * hA + wB * hB)); [|reflexivity]. unfold Qdiv. ring.
Qed.

Lemma calculateIoU_disjoint_witness :
  calculateIoU (0, 0, 50, 100) (50, 0, 50, 100) == 0.
Proof.
  apply (calculateIoU_disjoint 0 0 50 100 50 0 50 100). left. discriminate.
Defined.







(* ===================================================================== *)
(** * Further properties of [applyNMS] *)
(* ===================================================================== *)

(** The backward loop with [splice] removes exactly the detections whose
    intersection over union with [current] exceeds the threshold: no
    element is skipped or tested twice although the array shrinks under
    the loop, and the others keep their order. *)
Theorem remove_overlapping_exact (current : Detection) (iouThreshold : Q)
    (sorted : list Detection) :
  remove_overlapping current iouThreshold (length sorted) sorted
  = List.filter
      (fun d => negb (Qltb iouThreshold (calculateIoU (bbox current) (bbox d))))
      sorted /\
  (forall d, In d (remove_overlapping current iouThreshold (length sorted) sorted) <->
             In d sorted /\ calculateIoU (bbox current) (bbox d) <= iouThreshold).
Proof.
  assert (E : remove_overlapping current iouThreshold (length sorted) sorted
              = List.filter (keeps current iouThreshold) sorted)
    by apply remove_overlapping_filter.
  split; [exact E|].
  intros d. rewrite E, List.filter_In, keeps_le. reflexivity.
Qed.

Lemma filter_StronglySorted {A : Type} (R : A -> A -> Prop) (f : A -> bool)
    (l : list A) :
  StronglySorted R l -> StronglySorted R (List.filter f l).
Proof. apply sublist_StronglySorted, filter_sublist. Qed.

(** [applyNMS] only selects: its result is a sublist of its argument
    sorted by descending score, so it holds detections of the argument
    only, none more often than the argument does, best first. *)
Theorem applyNMS_selects (detections : list Detection) (iouThreshold : Q) :
  sublist (applyNMS detections iouThreshold) (Array_sort by_score detections) /\
  StronglySorted score_ge (applyNMS detections iouThreshold) /\
  (forall d, In d (applyNMS detections iouThreshold) -> In d detections) /\
  (length (applyNMS detections iouThreshold) <= length detections)%nat.
Proof.
  rewrite applyNMS_loop.
  pose proof (nms_loop_sublist iouThreshold (Array_sort by_score detections)) as Hs.
  split; [exact Hs|]. split; [|split].
  - eapply sublist_StronglySorted; [exact Hs | apply Array_sort_sorted].
  - intros d Hd. eapply Array_sort_In, sublist_In; eassumption.
  - rewrite <- (Array_sort_length by_score detections). now apply sublist_length.
Qed.

(** The first detection of the result is the first one of the sorted
    argument that is not a wide box: the most confident plausible
    detection is always kept. *)
Theorem applyNMS_head (detections : list Detection) (iouThreshold : Q) :
  hd_error (applyNMS detections iouThreshold)
  = List.find (fun d => negb (too_large d)) (Array_sort by_score detections).
Proof.
  rewrite applyNMS_loop.
  induction (Array_sort by_score detections) as [|current sorted IH].
  - now rewrite nms_loop_nil.
  - cbn [List.find]. destruct (too_large current) eqn:E; cbn [negb].
    + now rewrite nms_loop_skip.
    + now rewrite nms_loop_keep.
Qed.

(** Nothing is dropped without a reason: a detection of the argument that
    is not in the result is a wide box, or its intersection over union
    with a detection of the result that scores at least as much exceeds
    the threshold. *)
Theorem applyNMS_maximal (detections : list Detection) (iouThreshold : Q)
    (d : Detection) :
  In d detections ->
  In d (applyNMS detections iouThreshold) \/
  wide d \/
  exists a, In a (applyNMS detections iouThreshold) /\
            score d <= score a /\
            iouThreshold < calculateIoU (bbox a) (bbox d).
Proof.
  intros Hd. rewrite applyNMS_loop.
  apply (Array_sort_In by_score) in Hd.
  pose proof (Array_sort_sorted detections) as Hs.
  revert Hs Hd.
  induction (Array_sort by_score detections)
    as [| current sorted E IH | current sorted E IH] using (nms_loop_ind iouThreshold);
    intros Hs Hd.
  - destruct Hd.
  - inversion Hs as [|? ? Hs' Hc]; subst. rewrite nms_loop_skip by exact E.
    destruct Hd as [<-|Hd]; [right; left; now apply too_large_wide | now apply IH].
  - inversion Hs as [|? ? Hs' Hc]; subst. rewrite nms_loop_keep by exact E.
    destruct Hd as [<-|Hd]; [left; now left|].
    destruct (keeps current iouThreshold d) eqn:Ek.
    + assert (Hf : In d (List.filter (keeps current iouThreshold) sorted))
        by (apply List.filter_In; now split).
      destruct (IH (filter_StronglySorted _ _ _ Hs') Hf) as [H|[H|(a & Ha & Hsa & Hia)]].
      * left. now right.
      * right. now left.
      * right. right. exists a. split; [now right | now split].
    + right. right. exists current. split; [now left|]. split.
      * rewrite List.Forall_forall in Hc. exact (Hc d Hd).
      * unfold keeps in Ek. apply negb_false_iff in Ek. now apply Qltb_lt.
Qed.

Lemma applyNMS_maximal_witness :
  In (person 0.7 (12, 10, 50, 100))
     (applyNMS [person 0.7 (12, 10, 50, 100); person 0.9 (10, 10, 50, 100)] 0.3) \/
  wide (person 0.7 (12, 10, 50, 100)) \/
  exists a,
    In a (applyNMS [person 0.7 (12, 10, 50, 100); person 0.9 (10, 10, 50, 100)] 0.3) /\
    score (person 0.7 (12, 10, 50, 100)) <= score a /\
    0.3 < calculateIoU (bbox a) (bbox (person 0.7 (12, 10, 50, 100))).
Proof.
  apply (applyNMS_maximal
           [person 0.7 (12, 10, 50, 100); person 0.9 (10, 10, 50, 100)] 0.3
           (person 0.7 (12, 10, 50, 100))).
  simpl. left. reflexivity.
Defined.

(** [applyNMS] applied to its own result, with the same threshold, returns
    it unchanged. *)
Theorem applyNMS_idempotent (detections : list Detection) (iouThreshold : Q) :
  applyNMS (applyNMS detections iouThreshold) iouThreshold
  = applyNMS detections iouThreshold.
Proof.
  rewrite (applyNMS_loop (applyNMS detections iouThreshold)).
  rewrite Array_sort_sorted_id.
  2:{ rewrite applyNMS_loop. eapply sublist_StronglySorted;
        [apply nms_loop_sublist | apply Array_sort_sorted]. }
  apply nms_loop_fixed; rewrite applyNMS_loop.
  - apply nms_loop_not_large.
  - apply nms_loop_pairs.
Qed.



(** Run on the store, [applyNMS] ends without reading past the end of
    an array, within one round of its [while] loop for each detection,
    and returns a new array with what [applyNMS] computes on lists.  Its
    argument is not changed, the loops work on the copy
    [[...detections]], nor is any other array. *)
Theorem applyNMS_store (fuel : nat) (detections : positive) (iouThreshold : Q)
    (h : heap) (l : list Detection) :
  h !! detections = Some l ->
  (length l < fuel)%nat ->
  exists result h',
    Heap.applyNMS fuel detections iouThreshold h = Heap.Done result h' /\
    h' !! result = Some (applyNMS l iouThreshold) /\
    result <> detections /\
    h' !! detections = Some l /\
    (forall a elements, h !! a = Some elements -> h' !! a = Some elements).
Proof.
  intros Hl Hfuel.
  destruct (applyNMS_done fuel iouThreshold detections h l Hl Hfuel)
    as (r & h' & Hrun & Hr & Hnew & Hsub).
  exists r, h'. split; [exact Hrun|]. split; [exact Hr|]. split.
  - intros ->. congruence.
  - split; [exact (lookup_weaken _ _ _ _ Hl Hsub)|].
    intros a elements Ha. exact (lookup_weaken _ _ _ _ Ha Hsub).
Qed.

Lemma applyNMS_store_witness :
  exists result h',
    Heap.applyNMS 5 1%positive 0.3 {[1%positive := frame_predictions]}
    = Heap.Done result h' /\
    h' !! result = Some (applyNMS frame_predictions 0.3) /\
    result <> 1%positive /\
    h' !! 1%positive = Some frame_predictions /\
    (forall a elements,
       ({[1%positive := frame_predictions]} : heap) !! a = Some elements ->
       h' !! a = Some elements).
Proof.
  apply (applyNMS_store 5 1%positive 0.3 {[1%positive := frame_predictions]}
           frame_predictions).
  - reflexivity.
  - simpl. lia.
Defined.

(** [sort] alone works in place: the array it is given holds the sorted
    elements afterwards, and no array is added. *)
Example sort_array_in_place :
  Heap.sort_array by_score 1%positive
    {[1%positive := [person 0.7 (12, 10, 50, 100); person 0.9 (10, 10, 50, 100)]]}
  = Heap.Done 1%positive
      {[1%positive := [person 0.9 (10, 10, 50, 100); person 0.7 (12, 10, 50, 100)]]}.
Proof. vm_compute. reflexivity. Qed.

(* ===================================================================== *)
(** * Further properties of [detectObjects] *)
(* ===================================================================== *)

(** On a video at most 75 pixels wide or at most 62.5 pixels high no
    prediction passes the filter (a width above 30 is not below 40% of
    the video width, a height above 50 not below 80% of its height):
    [detectObjects] returns the empty array whatever the model found. *)
Theorem detectObjects_small_video (videoWidth videoHeight : Q)
    (predictions : list Detection) :
  videoWidth <= 75 \/ videoHeight <= 62.5 ->
  detectObjects videoWidth videoHeight predictions = [].
Proof.
  intros Hsmall.
  destruct (detectObjects videoWidth videoHeight predictions) as [|d l] eqn:E;
    [reflexivity|].
  assert (Hd : In d (detectObjects videoWidth videoHeight predictions))
    by (rewrite E; now left).
  apply detectObjects_In in Hd as [_ Hd]. apply jamaah_filter_stage1 in Hd.
  unfold stage1 in Hd. cbv zeta in Hd.
  destruct Hd as (_ & _ & H1 & H2 & H3 & H4 & _). destruct Hsmall; lra.
Qed.

Lemma detectObjects_small_video_witness :
  detectObjects 75 480 [person 0.9 (10, 10, 29.9, 100); person 0.9 (1, 1, 31, 60)] = [].
Proof.
  apply (detectObjects_small_video 75 480). left. discriminate.
Defined.

(** On a video at most 500 pixels wide the second size test of [applyNMS]
    never applies to what the filter lets through (a width above 200 is
    not below 40% of the video width).  The output then begins with the
    most confident prediction that passed the filter, and it is empty
    only when none passed. *)
Theorem detectObjects_narrow_video (videoWidth videoHeight : Q)
    (predictions : list Detection) :
  videoWidth <= 500 ->
  (forall d, jamaah_filter videoWidth videoHeight d = true -> too_large d = false) /\
  hd_error (detectObjects videoWidth videoHeight predictions)
  = hd_error (Array_sort by_score
                (List.filter (jamaah_filter videoWidth videoHeight) predictions)) /\
  (detectObjects videoWidth videoHeight predictions = [] <->
   List.filter (jamaah_filter videoWidth videoHeight) predictions = []).
Proof.
  intros Hw.
  assert (Hnl : forall d, jamaah_filter videoWidth videoHeight d = true ->
                          too_large d = false).
  { intros d Hd. destruct (too_large d) eqn:E; [|reflexivity].
    apply too_large_wide in E as [E _]. apply jamaah_filter_stage1 in Hd.
    unfold stage1 in Hd. cbv zeta in Hd. destruct Hd as (_ & _ & H1 & _). lra. }
  assert (Hhd : hd_error (detectObjects videoWidth videoHeight predictions)
                = hd_error (Array_sort by_score
                     (List.filter (jamaah_filter videoWidth videoHeight) predictions))).
  { rewrite detectObjects_loop.
    destruct (Array_sort by_score _) as [|d l] eqn:E; [now rewrite nms_loop_nil|].
    rewrite nms_loop_keep; [reflexivity|]. apply Hnl.
    assert (Hd : In d (Array_sort by_score
                (List.filter (jamaah_filter videoWidth videoHeight) predictions)))
      by (rewrite E; now left).
    apply Array_sort_In in Hd. now apply List.filter_In in Hd. }
  split; [exact Hnl|]. split; [exact Hhd|].
  split; intros H.
  - rewrite H in Hhd. cbn [hd_error] in Hhd.
    destruct (List.filter _ predictions) as [|d l] eqn:E; [reflexivity|].
    pose proof (Array_sort_length by_score (d :: l)) as Hlen.
    destruct (Array_sort by_score (d :: l)); [discriminate Hlen | discriminate Hhd].
  - rewrite detectObjects_loop, H. cbn [Array_sort fold_right]. apply nms_loop_nil.
Qed.

Lemma detectObjects_narrow_video_witness :
  too_large (person 0.9 (10, 10, 190, 100)) = false.
Proof.
  apply (proj1 (detectObjects_narrow_video 500 480 [] ltac:(discriminate))).
  reflexivity.
Defined.

Lemma Permutation_filter {A : Type} (f : A -> bool) (l l' : list A) :
  Permutation l l' -> Permutation (List.filter f l) (List.filter f l').
Proof.
  induction 1 as [|a l l' _ IH|a b l|l1 l2 l3 _ IH1 _ IH2]; cbn [List.filter].
  - constructor.
  - destruct (f a); [now constructor | exact IH].
  - destruct (f a), (f b); try reflexivity. apply perm_swap.
  - now transitivity (List.filter f l2).
Qed.

Lemma sublist_ForallOrdPairs {A : Type} (R : A -> A -> Prop) (l1 l2 : list A) :
  sublist l1 l2 -> ForallOrdPairs R l2 -> ForallOrdPairs R l1.
Proof.
  induction 1 as [|a l1 l2 Hs IH|a l1 l2 Hs IH]; intros H.
  - constructor.
  - inversion H as [|? ? Ha Hl]; subst. constructor; [|now apply IH].
    eapply sublist_Forall; eassumption.
  - inversion H; subst. now apply IH.
Qed.

Lemma distinct_scores_filter (s : Q) (l : list Detection) :
  distinct_scores l -> (length (List.filter (has_score s) l) <= 1)%nat.
Proof.
  induction 1 as [|a l Ha _ IH]; cbn [List.filter]; [simpl; lia|].
  destruct (has_score s a) eqn:Ea; [|exact IH].
  assert (Hnone : List.filter (has_score s) l = []).
  { clear IH. induction Ha as [|b l Hb _ IHl]; [reflexivity|].
    cbn [List.filter]. destruct (has_score s b) eqn:Eb; [|exact IHl].
    unfold has_score in Ea, Eb. apply Qeq_bool_iff in Ea, Eb.
    exfalso. apply Hb. now rewrite Ea, Eb. }
  rewrite Hnone. simpl. lia.
Qed.

Lemma Array_sort_permutation (l l' : list Detection) :
  Permutation l l' -> distinct_scores l ->
  Array_sort by_score l = Array_sort by_score l'.
Proof.
  intros Hp Hd.
  apply sorted_stable_unique; [apply Array_sort_sorted | apply Array_sort_sorted |].
  intros s. rewrite !Array_sort_stable.
  pose proof (Permutation_filter (has_score s) l l' Hp) as Hf.
  pose proof (distinct_scores_filter s l Hd) as Hlen.
  destruct (List.filter (has_score s) l) as [|a [|b t]].
  - now apply Permutation_nil in Hf.
  - now apply Permutation_length_1_inv in Hf.
  - simpl in Hlen. lia.
Qed.

(** When no two predictions have the same score, the results of [applyNMS]
    and of [detectObjects] do not depend on the order in which the
    predictions arrive. *)
Theorem detectObjects_order_independent (predictions predictions' : list Detection) :
  Permutation predictions predictions' ->
  distinct_scores predictions ->
  (forall iouThreshold,
     applyNMS predictions iouThreshold = applyNMS predictions' iouThreshold) /\
  (forall videoWidth videoHeight,
     detectObjects videoWidth videoHeight predictions
     = detectObjects videoWidth videoHeight predictions').
Proof.
  intros Hp Hd. split.
  - intros thr. rewrite !applyNMS_loop. now rewrite (Array_sort_permutation _ _ Hp Hd).
  - intros vw vh. rewrite !detectObjects_loop.
    rewrite (Array_sort_permutation
               (List.filter (jamaah_filter vw vh) predictions)
               (List.filter (jamaah_filter vw vh) predictions')); [reflexivity | |].
    + now apply Permutation_filter.
    + eapply sublist_ForallOrdPairs; [apply filter_sublist | exact Hd].
Qed.

Lemma detectObjects_order_independent_witness :
  detectObjects 640 480 [person 0.8 (50, 10, 50, 100); person 0.9 (10, 10, 50, 100)]
  = detectObjects 640 480 [person 0.9 (10, 10, 50, 100); person 0.8 (50, 10, 50, 100)].
Proof.
  apply (proj2 (detectObjects_order_independent
           [person 0.8 (50, 10, 50, 100); person 0.9 (10, 10, 50, 100)]
           [person 0.9 (10, 10, 50, 100); person 0.8 (50, 10, 50, 100)]
           (perm_swap _ _ [])
           ltac:(repeat constructor; discriminate))).
Defined.

(** With equal scores the order matters: of two overlapping detections
    of one score the one that comes first in the input is kept. *)
Example detectObjects_order_ties :
  detectObjects 640 480 [person 0.9 (12, 10, 50, 100); person 0.9 (10, 10, 50, 100)]
  = [person 0.9 (12, 10, 50, 100)] /\
  detectObjects 640 480 [person 0.9 (10, 10, 50, 100); person 0.9 (12, 10, 50, 100)]
  = [person 0.9 (10, 10, 50, 100)].
Proof. split; reflexivity. Qed.

(* ===================================================================== *)
(** * The next prayer and the countdown *)
(* ===================================================================== *)

Section PrayerFacts.
Local Open Scope Z_scope.

Example String_split_time : String_split ":" "04:45" = ["04"; "45"]%string.
Proof. reflexivity. Qed.

Example String_split_edges :
  String_split ":" "" = [""]%string /\
  String_split ":" "0445" = ["0445"]%string /\
  String_split ":" "04:" = ["04"; ""]%string /\
  String_split ":" "1:2:3" = ["1"; "2"; "3"]%string.
Proof. repeat split. Qed.

Example prayerMinutes_table :
  List.map prayerMinutes prayerTimes
  = [Some 285; Some 361; Some 390; Some 723; Some 924; Some 1077; Some 1149].
Proof. reflexivity. Qed.

(** The minute of the day [getNextPrayer] computes. *)
Lemma currentMinutes_eq (currentTime : Z) :
  getHours currentTime * 60 + getMinutes currentTime
  = (currentTime mod 86400000) / 60000 /\
  0 <= (currentTime mod 86400000) / 60000 < 1440.
Proof.
  unfold getHours, getMinutes. Z.div_mod_to_equations. lia.
Qed.

(** What the loop of [getNextPrayer] finds, by the minute of the day. *)
Lemma getNextPrayer_find (cm : Z) :
  List.find
    (fun prayer =>
       match prayerMinutes prayer with
       | Some m => cm <? m
       | None => false
       end)
    prayerTimes
  = if cm <? 285 then nth_error prayerTimes 0
    else if cm <? 361 then nth_error prayerTimes 1
    else if cm <? 390 then nth_error prayerTimes 2
    else if cm <? 723 then nth_error prayerTimes 3
    else if cm <? 924 then nth_error prayerTimes 4
    else if cm <? 1077 then nth_error prayerTimes 5
    else if cm <? 1149 then nth_error prayerTimes 6
    else None.
Proof.
  unfold prayerTimes. cbn [List.find].
  repeat match goal with
         | |- context [prayerMinutes ?p] =>
             let v := eval vm_compute in (prayerMinutes p) in
             change (prayerMinutes p) with v
         end.
  cbn [nth_error].
  repeat (destruct (cm <? _); [reflexivity|]). reflexivity.
Qed.

(** Every entry of the table has a time of the form hours, colon,
    minutes. *)
Lemma prayerTimes_times (prayer : Prayer) :
  In prayer prayerTimes ->
  exists sh sm hours minutes,
    String_split ":" (time prayer) = [sh; sm] /\
    parseInt sh = Some hours /\ parseInt sm = Some minutes /\
    prayerMinutes prayer = Some (hours * 60 + minutes) /\
    0 <= hours < 24 /\ 0 <= minutes < 60 /\
    285 <= hours * 60 + minutes <= 1149.
Proof.
  unfold prayerTimes. cbn [In].
  intros [<-|[<-|[<-|[<-|[<-|[<-|[<-|[]]]]]]]];
    eexists _, _, _, _; (split; [lazy; reflexivity|]); (split; [lazy; reflexivity|]);
    (split; [lazy; reflexivity|]); (split; [reflexivity|]); lia.
Qed.

(** [getNextPrayer] always returns an entry of the table.  Before 19:09
    it is the entry with the earliest time later than the current minute
    (at the minute of a prayer, the one after it); from 19:09 on, when no
    entry is later, it is Subuh. *)
Theorem getNextPrayer_next (currentTime : Z) :
  exists prayer m,
    getNextPrayer currentTime = Some prayer /\
    In prayer prayerTimes /\
    prayerMinutes prayer = Some m /\
    ((currentTime mod 86400000) / 60000 < m /\
     (forall q mq, In q prayerTimes -> prayerMinutes q = Some mq ->
                   (currentTime mod 86400000) / 60000 < mq -> m <= mq)
     \/
     1149 <= (currentTime mod 86400000) / 60000 /\
     name prayer = "Subuh"%string /\
     (forall q mq, In q prayerTimes -> prayerMinutes q = Some mq ->
                   mq <= (currentTime mod 86400000) / 60000)).
Proof.
  unfold getNextPrayer. cbv zeta.
  destruct (currentMinutes_eq currentTime) as [-> Hcm].
  set (cm := (currentTime mod 86400000) / 60000) in *.
  rewrite getNextPrayer_find.
  assert (Hall : forall q mq, In q prayerTimes -> prayerMinutes q = Some mq ->
                   mq = 285 \/ mq = 361 \/ mq = 390 \/ mq = 723 \/ mq = 924 \/
                   mq = 1077 \/ mq = 1149).
  { unfold prayerTimes. cbn [In].
    intros q mq [<-|[<-|[<-|[<-|[<-|[<-|[<-|[]]]]]]]] E;
      vm_compute in E; injection E as <-; lia. }
  repeat match goal with
         | |- context [if cm <? ?k then _ else _] =>
             destruct (Z.ltb_spec cm k)
         end;
    cbn [nth_error prayerTimes];
    match goal with
    | |- exists prayer m, Some ?p = Some prayer /\ _ =>
        let v := eval vm_compute in (prayerMinutes p) in
        match v with
        | Some ?m => exists p, m
        end
    end;
    (split; [reflexivity|]);
    (split; [unfold prayerTimes; cbn [In]; tauto|]);
    (split; [reflexivity|]);
    first [ left; split; [lia|];
            intros q mq Hq Eq Hlt; specialize (Hall q mq Hq Eq); lia
          | right; split; [lia|]; split; [reflexivity|];
            intros q mq Hq Eq; specialize (Hall q mq Hq Eq); lia ].
Qed.
End PrayerFacts.

Section CountdownFacts.
Local Open Scope Z_scope.

(** The hours, minutes and seconds of a positive number of
    milliseconds, as [calculateTimeUntilNext] takes them. *)
Lemma hms_of_diff (diff : Z) :
  0 < diff ->
  0 <= diff / 3600000 /\
  0 <= Z.rem diff 3600000 / 60000 < 60 /\
  0 <= Z.rem diff 60000 / 1000 < 60 /\
  diff / 3600000 * 3600 + Z.rem diff 3600000 / 60000 * 60 + Z.rem diff 60000 / 1000
  = diff / 1000.
Proof.
  intros Hd. rewrite !Z.rem_mod_nonneg by lia.
  Z.div_mod_to_equations. lia.
Qed.

(** The instant whose hours [calculateTimeUntilNext] sets, moved to the
    next day when it is not after [now]. *)
Lemma next_occurrence (now today pm : Z) :
  0 <= pm < 1440 -> now <= today ->
  let t := today - today mod 86400000 + pm * 60000 in
  let target := if t <=? now then t + 86400000 else t in
  target mod 86400000 = pm * 60000 /\
  now < target /\
  (today / 86400000 = now / 86400000 -> target <= now + 86400000).
Proof.
  intros Hpm Hle t target. subst target.
  assert (Eday : today - today mod 86400000 = 86400000 * (today / 86400000))
    by (Z.div_mod_to_equations; lia).
  assert (Et : t = 86400000 * (today / 86400000) + pm * 60000)
    by (unfold t; lia).
  destruct (Z.leb_spec t now) as [H|H].
  - split; [|split].
    + rewrite Et.
      replace (86400000 * (today / 86400000) + pm * 60000 + 86400000)
        with (pm * 60000 + (today / 86400000 + 1) * 86400000) by lia.
      rewrite Z.mod_add by lia. apply Z.mod_small. lia.
    + assert (now / 86400000 <= today / 86400000) by (apply Z.div_le_mono; lia).
      Z.div_mod_to_equations. lia.
    + intros Esame. lia.
  - split; [|split].
    + rewrite Et.
      replace (86400000 * (today / 86400000) + pm * 60000)
        with (pm * 60000 + (today / 86400000) * 86400000) by lia.
      rewrite Z.mod_add by lia. apply Z.mod_small. lia.
    + exact H.
    + intros Esame. rewrite Et, Esame. Z.div_mod_to_equations. lia.
Qed.

(** The countdown to a prayer of the table.  [calculateTimeUntilNext]
    counts to the first instant after [now] at which the clock shows the
    time of the prayer, at most 24 hours ahead when both dates are taken
    on the same day (24 hours exactly when [now] is that very time), and
    shows the whole seconds left as hours, minutes below 60 and seconds
    below 60. *)
Theorem timeUntilNext_countdown (now today : Z) (prayer : Prayer) :
  In prayer prayerTimes ->
  now <= today ->
  exists pm h m s target,
    prayerMinutes prayer = Some pm /\
    timeUntilNext now today prayer = Some (h, m, s) /\
    target mod 86400000 = pm * 60000 /\
    now < target /\
    (today / 86400000 = now / 86400000 -> target <= now + 86400000) /\
    0 <= h /\ 0 <= m < 60 /\ 0 <= s < 60 /\
    h * 3600 + m * 60 + s = (target - now) / 1000.
Proof.
  intros Hin Hle.
  destruct (prayerTimes_times prayer Hin)
    as (sh & sm & hours & minutes & Hsplit & Hh & Hm & Hpm & Hhr & Hmr & _).
  destruct (next_occurrence now today (hours * 60 + minutes) ltac:(lia) Hle)
    as (Hmod & Hlt & Hday).
  cbv zeta in Hmod, Hlt, Hday.
  set (target := if _ <=? now then _ else _) in *.
  assert (Et : timeUntilNext now today prayer
               = Some ((target - now) / 3600000,
                       Z.rem (target - now) 3600000 / 60000,
                       Z.rem (target - now) 60000 / 1000)).
  { unfold timeUntilNext. rewrite Hsplit, Hh, Hm. cbv zeta. unfold setHours.
    replace (today - today mod 86400000 + hours * 3600000 + minutes * 60000)
      with (today - today mod 86400000 + (hours * 60 + minutes) * 60000) by lia.
    reflexivity. }
  destruct (hms_of_diff (target - now) ltac:(lia)) as (H1 & H2 & H3 & H4).
  exists (hours * 60 + minutes), ((target - now) / 3600000),
    (Z.rem (target - now) 3600000 / 60000), (Z.rem (target - now) 60000 / 1000), target.
  repeat split; try assumption; lia.
Qed.

Lemma timeUntilNext_countdown_witness :
  exists pm h m s target,
    prayerMinutes {| name := "Dzuhur"; time := "12:03" |} = Some pm /\
    timeUntilNext 43380000 43380000 {| name := "Dzuhur"; time := "12:03" |}
    = Some (h, m, s) /\
    target mod 86400000 = pm * 60000 /\
    43380000 < target /\
    (43380000 / 86400000 = 43380000 / 86400000 -> target <= 43380000 + 86400000) /\
    0 <= h /\ 0 <= m < 60 /\ 0 <= s < 60 /\
    h * 3600 + m * 60 + s = (target - 43380000) / 1000.
Proof.
  apply (timeUntilNext_countdown 43380000 43380000 {| name := "Dzuhur"; time := "12:03" |}).
  - simpl. tauto.
  - lia.
Defined.

(** At 12:03:00 sharp the countdown to Dzuhur (12:03) reads 24 hours;
    one millisecond earlier it reads zero. *)
Example calculateTimeUntilNext_at_prayer :
  calculateTimeUntilNext 43380000 43380000 {| name := "Dzuhur"; time := "12:03" |}
  = "24h 0m 0s"%string /\
  calculateTimeUntilNext 43379999 43379999 {| name := "Dzuhur"; time := "12:03" |}
  = "0h 0m 0s"%string.
Proof. split; vm_compute; reflexivity. Qed.

(** The longest wait of the table, from Isya (19:09) to Subuh (04:45). *)
Lemma next_prayer_gap (cm : Z) :
  0 <= cm < 1440 ->
  match
    List.find
      (fun prayer =>
         match prayerMinutes prayer with
         | Some m => cm <? m
         | None => false
         end)
      prayerTimes
  with
  | Some prayer => exists m, prayerMinutes prayer = Some m /\ cm < m <= cm + 333
  | None => 1149 <= cm
  end.
Proof.
  intros Hcm. rewrite getNextPrayer_find.
  repeat match goal with
         | |- context [if cm <? ?k then _ else _] =>
             destruct (Z.ltb_spec cm k)
         end;
    cbn [nth_error prayerTimes];
    try match goal with
        | |- exists m, prayerMinutes ?p = Some m /\ _ =>
            let v := eval vm_compute in (prayerMinutes p) in
            match v with
            | Some ?m => exists m; split; [reflexivity | lia]
            end
        end.
  lia.
Qed.

Lemma timeUntilNext_same_day (now today pm : Z) (prayer : Prayer) :
  In prayer prayerTimes -> prayerMinutes prayer = Some pm ->
  today - today mod 86400000 = now - now mod 86400000 ->
  timeUntilNext now today prayer
  = let t := now - now mod 86400000 + pm * 60000 in
    let target := if t <=? now then t + 86400000 else t in
    Some ((target - now) / 3600000,
          Z.rem (target - now) 3600000 / 60000,
          Z.rem (target - now) 60000 / 1000).
Proof.
  intros Hin Hpm Eday.
  destruct (prayerTimes_times prayer Hin)
    as (sh & sm & hours & minutes & Hsplit & Hh & Hm & Hpm' & _).
  rewrite Hpm in Hpm'. injection Hpm' as ->.
  unfold timeUntilNext. rewrite Hsplit, Hh, Hm. cbv zeta. unfold setHours.
  rewrite Eday.
  replace (now - now mod 86400000 + hours * 3600000 + minutes * 60000)
    with (now - now mod 86400000 + (hours * 60 + minutes) * 60000) by lia.
  reflexivity.
Qed.

(** The page as it renders: [nextPrayer] comes from [currentTime], the
    countdown from fresh dates.  When all of them fall in the same minute
    the countdown runs to the next prayer of the table and never exceeds
    9 hours 36 minutes, the wait from Isya to Subuh. *)
Theorem countdown_to_next_prayer (currentTime now today : Z) :
  currentTime / 60000 = now / 60000 ->
  today / 60000 = now / 60000 ->
  exists prayer h m s,
    getNextPrayer currentTime = Some prayer /\
    timeUntilNext now today prayer = Some (h, m, s) /\
    0 <= h /\ 0 <= m < 60 /\ 0 <= s < 60 /\
    h * 3600 + m * 60 + s <= 34560.
Proof.
  intros Ecur Etoday.
  unfold getNextPrayer. cbv zeta.
  destruct (currentMinutes_eq currentTime) as [-> Hcm].
  set (cm := (currentTime mod 86400000) / 60000) in *.
  assert (Enow : (now mod 86400000) / 60000 = cm).
  { unfold cm. clear -Ecur. Z.div_mod_to_equations. lia. }
  assert (Eday : today - today mod 86400000 = now - now mod 86400000).
  { clear -Etoday. Z.div_mod_to_equations. lia. }
  pose proof (next_prayer_gap cm Hcm) as Hgap.
  assert (Hnext : exists prayer pm,
             match List.find
                     (fun prayer => match prayerMinutes prayer with
                                    | Some m => cm <? m
                                    | None => false
                                    end) prayerTimes
             with
             | Some prayer => Some prayer
             | None => nth_error prayerTimes 0
             end = Some prayer /\
             In prayer prayerTimes /\ prayerMinutes prayer = Some pm /\
             (cm < pm <= cm + 333 \/ 1149 <= cm /\ pm = 285)).
  { destruct (List.find _ prayerTimes) as [prayer|] eqn:Efind.
    - destruct Hgap as (pm & Hpm & Hrange).
      apply List.find_some in Efind as [Hin _].
      exists prayer, pm. repeat split; try assumption. now left.
    - exists {| name := "Subuh"; time := "04:45" |}, 285.
      split; [reflexivity|]. split; [unfold prayerTimes; cbn [In]; tauto|].
      split; [reflexivity|]. right. now split. }
  destruct Hnext as (prayer & pm & Hres & Hin & Hpm & Hrange).
  pose proof (timeUntilNext_same_day now today pm prayer Hin Hpm Eday) as Et.
  cbv zeta in Et.
  set (t := now - now mod 86400000 + pm * 60000) in *.
  set (target := if t <=? now then t + 86400000 else t) in *.
  assert (Ht : now < target <= now + 34560000).
  { unfold target. destruct (Z.leb_spec t now) as [H|H]; unfold t in *;
      clear -Enow Hrange Hcm H; Z.div_mod_to_equations; lia. }
  destruct (hms_of_diff (target - now) ltac:(lia)) as (H1 & H2 & H3 & H4).
  exists prayer, ((target - now) / 3600000), (Z.rem (target - now) 3600000 / 60000),
    (Z.rem (target - now) 60000 / 1000).
  split; [exact Hres|]. split; [exact Et|].
  repeat split; try assumption; try lia.
  rewrite H4. clear -Ht. Z.div_mod_to_equations. lia.
Qed.

Lemma countdown_to_next_prayer_witness :
  exists prayer h m s,
    getNextPrayer 69000000 = Some prayer /\
    timeUntilNext 69000500 69000900 prayer = Some (h, m, s) /\
    0 <= h /\ 0 <= m < 60 /\ 0 <= s < 60 /\
    h * 3600 + m * 60 + s <= 34560.
Proof.
  apply (countdown_to_next_prayer 69000000 69000500 69000900); reflexivity.
Defined.

Example countdown_after_isya :
  option_map name (getNextPrayer 69000000) = Some "Subuh"%string /\
  calculateTimeUntilNext 69000500 69000900 {| name := "Subuh"; time := "04:45" |}
  = "9h 34m 59s"%string.
Proof. split; vm_compute; reflexivity. Qed.
End CountdownFacts.

(* ===================================================================== *)
(** * What is painted *)
(* ===================================================================== *)

Lemma texts_of_app (ops1 ops2 : list canvas_op) :
  texts_of (ops1 ++ ops2) = texts_of ops1 ++ texts_of ops2.
Proof. apply flat_map_app. Qed.

Lemma boxes_of_app (ops1 ops2 : list canvas_op) :
  boxes_of (ops1 ++ ops2) = boxes_of ops1 ++ boxes_of ops2.
Proof. apply flat_map_app. Qed.

Lemma draw_detection_texts (scaleX scaleY : number) (index : nat) (d : Detection) :
  texts_of (draw_detection scaleX scaleY index d)
  = ["Jamaah " +:+ pretty (S index); pretty (S index)].
Proof.
  unfold draw_detection. destruct (bbox d) as [[[x y] w] h].
  cbv zeta. rewrite Nat.add_1_r. reflexivity.
Qed.

Lemma draw_detection_boxes (scaleX scaleY : number) (index : nat) (d : Detection) :
  boxes_of (draw_detection scaleX scaleY index d)
  = [let '(x, y, w, h) := bbox d in
     (js_mul (Finite x) scaleX, js_mul (Finite y) scaleY,
      js_mul (Finite w) scaleX, js_mul (Finite h) scaleY)].
Proof.
  unfold draw_detection. destruct (bbox d) as [[[x y] w] h]. reflexivity.
Qed.

Lemma draw_from_texts (scaleX scaleY : number) (jamaah : list Detection) :
  forall index,
    texts_of (draw_from scaleX scaleY index jamaah)
    = flat_map (fun k => ["Jamaah " +:+ pretty k; pretty k])
        (seq (S index) (length jamaah)).
Proof.
  induction jamaah as [|d l IH]; intros index; [reflexivity|].
  cbn [draw_from length seq flat_map].
  now rewrite texts_of_app, draw_detection_texts, IH.
Qed.

Lemma draw_from_boxes (scaleX scaleY : number) (jamaah : list Detection) :
  forall index,
    boxes_of (draw_from scaleX scaleY index jamaah)
    = List.map (fun d => let '(x, y, w, h) := bbox d in
                         (js_mul (Finite x) scaleX, js_mul (Finite y) scaleY,
                          js_mul (Finite w) scaleX, js_mul (Finite h) scaleY))
        jamaah.
Proof.
  induction jamaah as [|d l IH]; intros index; [reflexivity|].
  cbn [draw_from List.map].
  now rewrite boxes_of_app, draw_detection_boxes, IH.
Qed.

(** When the model answers, the count shown is the number of boxes
    painted, and the boxes are numbered from 1 in the order of the
    output of [detectObjects], best score first: the texts written are
    "Jamaah 1", "1", "Jamaah 2", "2" and so on up to the count.  Nothing
    of an earlier frame is left on the canvas. *)
Theorem detectObjects_paints_count (video : Video) (canvas canvas0 : Canvas)
    (predictions : list Detection) (startTime afterNMS now : Z) (c : Component) :
  canvasRef c = Some canvas0 ->
  let c' := detectObjects_resume video canvas predictions startTime afterNMS now c in
  exists canvas',
    canvasRef c' = Some canvas' /\
    jamaahCount c'
    = length (detectObjects (videoWidth video) (videoHeight video) predictions) /\
    length (boxes_of (painted canvas')) = jamaahCount c' /\
    texts_of (painted canvas')
    = flat_map (fun k => ["Jamaah " +:+ pretty k; pretty k]) (seq 1 (jamaahCount c')).
Proof.
  intros Hc c'. unfold c', detectObjects_resume. cbv zeta.
  cbn [canvasRef jamaahCount]. rewrite Hc. cbn [option_map].
  eexists. split; [reflexivity|]. split; [reflexivity|].
  unfold paint. cbn [painted]. split.
  - now rewrite draw_from_boxes, length_map.
  - apply draw_from_texts.
Qed.

Lemma detectObjects_paints_count_witness :
  exists canvas',
    canvasRef
      (detectObjects_resume (mkVideo 640 480) (mkCanvas 640 480 800 600 [])
         frame_predictions 0 40 50
         (mkComponent 0 (mkStats 0 true 0) None
            (Some (mkCanvas 640 480 800 600 [])) true (Some 1%nat) 0 0 {[1%nat]} 2))
    = Some canvas' /\
    jamaahCount
      (detectObjects_resume (mkVideo 640 480) (mkCanvas 640 480 800 600 [])
         frame_predictions 0 40 50
         (mkComponent 0 (mkStats 0 true 0) None
            (Some (mkCanvas 640 480 800 600 [])) true (Some 1%nat) 0 0 {[1%nat]} 2))
    = length (detectObjects 640 480 frame_predictions) /\
    length (boxes_of (painted canvas'))
    = jamaahCount
        (detectObjects_resume (mkVideo 640 480) (mkCanvas 640 480 800 600 [])
           frame_predictions 0 40 50
           (mkComponent 0 (mkStats 0 true 0) None
              (Some (mkCanvas 640 480 800 600 [])) true (Some 1%nat) 0 0 {[1%nat]} 2)) /\
    texts_of (painted canvas')
    = flat_map (fun k => ["Jamaah " +:+ pretty k; pretty k])
        (seq 1 (jamaahCount
           (detectObjects_resume (mkVideo 640 480) (mkCanvas 640 480 800 600 [])
              frame_predictions 0 40 50
              (mkComponent 0 (mkStats 0 true 0) None
                 (Some (mkCanvas 640 480 800 600 [])) true (Some 1%nat) 0 0 {[1%nat]} 2)))).
Proof.
  apply (detectObjects_paints_count (mkVideo 640 480) (mkCanvas 640 480 800 600 [])
           (mkCanvas 640 480 800 600 []) frame_predictions 0 40 50).
  reflexivity.
Defined.

Example paint_texts :
  texts_of (painted (paint (mkVideo 640 480) (mkCanvas 640 480 800 600 [])
                       (detectObjects 640 480 frame_predictions)))
  = ["Jamaah 1"; "1"; "Jamaah 2"; "2"]%string.
Proof. vm_compute. reflexivity. Qed.

Lemma js_mul_finite (p q : Q) : js_mul (Finite p) (Finite q) = Finite (p * q).
Proof. reflexivity. Qed.

Lemma draw_from_finite (scaleX scaleY : Q) (jamaah : list Detection) :
  forall index,
    forallb op_finite (draw_from (Finite scaleX) (Finite scaleY) index jamaah) = true.
Proof.
  induction jamaah as [|d l IH]; intros index; [reflexivity|].
  cbn [draw_from]. rewrite forallb_app, IH, andb_true_r.
  unfold draw_detection. destruct (bbox d) as [[[x y] w] h]. reflexivity.
Qed.

(** No infinite or undefined coordinate is ever given to the canvas,
    whatever the sizes of the video and of the canvas and whatever the
    model found.  The scales divide by the video width and height, which
    the function does not test against zero after the model answered,
    but a detection is painted only when it passed the filter, and then
    the video is more than 75 pixels wide and 62.5 pixels high. *)
Theorem paint_finite (video : Video) (canvas : Canvas) (predictions : list Detection) :
  forallb op_finite
    (painted (paint video canvas
                (detectObjects (videoWidth video) (videoHeight video) predictions)))
  = true.
Proof.
  unfold paint. cbn [painted].
  destruct (detectObjects (videoWidth video) (videoHeight video) predictions)
    as [|d l] eqn:E; [reflexivity|].
  assert (Hd : In d (detectObjects (videoWidth video) (videoHeight video) predictions))
    by (rewrite E; now left).
  apply detectObjects_In in Hd as [_ Hd]. apply jamaah_filter_stage1 in Hd.
  unfold stage1 in Hd. cbv zeta in Hd.
  destruct Hd as (_ & _ & H1 & H2 & H3 & H4 & _).
  rewrite !js_div_finite by lra. apply draw_from_finite.
Qed.

Example paint_zero_height :
  js_div 480 0 = PosInfinity /\
  painted (paint (mkVideo 640 0) (mkCanvas 640 480 800 600 [])
             (detectObjects 640 0 frame_predictions)) = [].
Proof. split; reflexivity. Qed.

(** After [updateCanvasSize] has given the canvas the size of the video,
    both scales are 1 and every box is stroked at the very coordinates of
    its detection. *)
Theorem paint_unscaled (video : Video) (rect_width rect_height : Q)
    (canvas : Canvas) (jamaah : list Detection) :
  0 < videoWidth video -> 0 < videoHeight video ->
  Forall2
    (fun box d =>
       let '(bx, by_, bw, bh) := box in
       let '(x, y, w, h) := bbox d in
       number_is bx x /\ number_is by_ y /\ number_is bw w /\ number_is bh h)
    (boxes_of (painted (paint video
                          (updateCanvasSize video rect_width rect_height canvas)
                          jamaah)))
    jamaah.
Proof.
  intros Hw Hh. unfold paint, updateCanvasSize. cbn [painted].
  rewrite (proj2 (Qltb_lt 0 (videoWidth video)) Hw),
    (proj2 (Qltb_lt 0 (videoHeight video)) Hh).
  cbn [andb canvas_width canvas_height].
  rewrite !js_div_finite by lra. rewrite draw_from_boxes.
  induction jamaah as [|d l IH]; cbn [List.map]; constructor; [|exact IH].
  destruct (bbox d) as [[[x y] w] h]. cbn [js_mul number_is].
  repeat split; field; lra.
Qed.

Lemma paint_unscaled_witness :
  Forall2
    (fun box d =>
       let '(bx, by_, bw, bh) := box in
       let '(x, y, w, h) := bbox d in
       number_is bx x /\ number_is by_ y /\ number_is bw w /\ number_is bh h)
    (boxes_of (painted (paint (mkVideo 640 480)
                          (updateCanvasSize (mkVideo 640 480) 800 600
                             (mkCanvas 300 150 300 150 []))
                          [person 0.9 (10, 10, 50, 100)])))
    [person 0.9 (10, 10, 50, 100)].
Proof.
  apply (paint_unscaled (mkVideo 640 480) 800 600 (mkCanvas 300 150 300 150 [])
           [person 0.9 (10, 10, 50, 100)]); reflexivity.
Defined.

(* ===================================================================== *)
(** * Starting and stopping the detection *)
(* ===================================================================== *)

Lemma intervals_ok_mounted (now : Z) : intervals_ok (mounted now).
Proof. repeat split; cbn; intros; congruence. Qed.

Lemma intervals_ok_step (c : Component) (e : event) :
  intervals_ok c -> intervals_ok (step c e).
Proof.
  intros (Hi & Hn & Hd). destruct e as [| |video canvas predictions t0 t1 now];
    cbn [step].
  - unfold startDetection. destruct (detectionIntervalRef c) as [id|] eqn:E.
    + unfold intervals_ok. now rewrite E.
    + repeat split; cbn.
      * rewrite Hi. set_solver.
      * intros id [= <-]. lia.
  - unfold stopDetection. repeat split; cbn; [|intros; congruence..].
    rewrite Hi. destruct (detectionIntervalRef c); set_solver.
  - unfold detectObjects_resume. repeat split; cbn; [exact Hi | exact Hn].
Qed.

Lemma intervals_ok_run (events : list event) (c : Component) :
  intervals_ok c -> intervals_ok (run events c).
Proof.
  revert c. induction events as [|e events IH]; intros c Hc; [exact Hc|].
  cbn [run fold_left]. apply IH, intervals_ok_step, Hc.
Qed.

(** Whatever is pressed and whenever the model answers, the browser runs
    at most one detection interval, the one [detectionIntervalRef]
    holds: Start while the detection runs creates no second interval,
    Stop clears the one there is.  While an interval runs the panel shows
    the detection as active. *)
Theorem detection_single_interval (events : list event) (now : Z) :
  let c := run events (mounted now) in
  intervals c = match detectionIntervalRef c with
                | Some id => {[id]}
                | None => ∅
                end /\
  (size (intervals c) <= 1)%nat /\
  (detectionIntervalRef c <> None -> isDetecting (detectionStats c) = true).
Proof.
  intros c.
  destruct (intervals_ok_run events (mounted now) (intervals_ok_mounted now))
    as (Hi & _ & Hd).
  fold c in Hi, Hd. split; [exact Hi|]. split; [|exact Hd].
  rewrite Hi. destruct (detectionIntervalRef c).
  - now rewrite size_singleton.
  - rewrite size_empty. lia.
Qed.


(** A detection that is under way when Stop is pressed still paints and
    sets the panel to active when the model answers, with no interval
    running. *)
Example answer_after_stop :
  let c := run [Start; Stop;
                Answer (mkVideo 640 480) (mkCanvas 640 480 800 600 [])
                  frame_predictions 0 40 50]
               (mkComponent 0 (mkStats 0 false 0) (Some (mkVideo 640 480))
                  (Some (mkCanvas 640 480 800 600 [])) true None 0 0 ∅ 1) in
  intervals c = ∅ /\ isDetecting (detectionStats c) = true /\ jamaahCount c = 2%nat.
Proof. repeat split. Qed.

(* ===================================================================== *)
(** * The frame counter *)
(* ===================================================================== *)




Example fps_log_run :
  fps_log [Start;
           Answer (mkVideo 640 480) (mkCanvas 640 480 800 600 []) [] 0 40 400;
           Answer (mkVideo 640 480) (mkCanvas 640 480 800 600 []) [] 400 440 1100;
           Answer (mkVideo 640 480) (mkCanvas 640 480 800 600 []) [] 1100 1140 1300]
          (mounted 0)
  = [2%nat].
Proof. reflexivity. Qed.

(* ===================================================================== *)
(** * The date line *)
(* ===================================================================== *)

Example formatDate_friday :
  formatDate {| getDay := 5; getDate := 8; getMonth := 7; getFullYear := 2025 |}
  = "Jumat, 8 Agustus 2025"%string.
Proof. vm_compute. reflexivity. Qed.

Example formatDate_out_of_range :
  formatDate {| getDay := 7; getDate := 8; getMonth := 12; getFullYear := 2025 |}
  = "undefined, 8 undefined 2025"%string.
Proof. vm_compute. reflexivity. Qed.

(** Two texts that agree, each cut at the first [c]. *)
Lemma split_at_char (c : ascii) (a1 a2 r1 r2 : string) :
  has_char c a1 = false -> has_char c a2 = false ->
  a1 +:+ String c r1 = a2 +:+ String c r2 ->
  a1 = a2 /\ r1 = r2.
Proof.
  revert a2. induction a1 as [|c1 a1 IH]; intros [|c2 a2] H1 H2 E; cbn in *.
  - injection E as ->. now split.
  - injection E as <- _. now rewrite Ascii.eqb_refl in H2.
  - injection E as -> _. now rewrite Ascii.eqb_refl in H1.
  - injection E as -> E. apply orb_false_iff in H1 as [_ H1].
    apply orb_false_iff in H2 as [_ H2].
    destruct (IH a2 H1 H2 E) as [-> ->]. now split.
Qed.

Lemma pretty_N_go_no_space (x : N) :
  forall s, has_char " " s = false -> has_char " " (pretty_N_go x s) = false.
Proof.
  induction (N.lt_wf_0 x) as [x _ IH]. intros s Hs.
  destruct (N.eq_dec x 0%N) as [->|Hx]; [now rewrite pretty_N_go_0|].
  rewrite pretty_N_go_step by lia. apply IH.
  - apply N.div_lt; lia.
  - cbn [has_char]. rewrite Hs, orb_false_r.
    unfold pretty_N_char. now repeat case_match.
Qed.

Lemma pretty_nat_no_space (n : nat) : has_char " " (pretty n) = false.
Proof.
  unfold pretty, pretty_nat, pretty, pretty_N.
  destruct (decide (N.of_nat n = 0%N)); [reflexivity|].
  now apply pretty_N_go_no_space.
Qed.

Lemma days_item (i j : nat) :
  (i < 7)%nat -> (j < 7)%nat ->
  has_char "," (template_item days i) = false /\
  (template_item days i = template_item days j -> i = j).
Proof.
  intros Hi Hj.
  do 7 (destruct i as [|i];
        [split; [reflexivity|];
         do 7 (destruct j as [|j]; [first [reflexivity | discriminate]|]); lia |]).
  lia.
Qed.

Lemma months_item (i j : nat) :
  (i < 12)%nat -> (j < 12)%nat ->
  has_char " " (template_item months i) = false /\
  (template_item months i = template_item months j -> i = j).
Proof.
  intros Hi Hj.
  do 12 (destruct i as [|i];
         [split; [reflexivity|];
          do 12 (destruct j as [|j]; [first [reflexivity | discriminate]|]); lia |]).
  lia.
Qed.

(** The date line tells the date: for dates whose weekday is below 7 and
    whose month is below 12, as every [Date] gives them, two lines are
    equal only when weekday, day, month and year are. *)
Theorem formatDate_injective (date1 date2 : CalendarDate) :
  (getDay date1 < 7)%nat -> (getMonth date1 < 12)%nat ->
  (getDay date2 < 7)%nat -> (getMonth date2 < 12)%nat ->
  formatDate date1 = formatDate date2 ->
  date1 = date2.
Proof.
  intros Hd1 Hm1 Hd2 Hm2 E.
  destruct date1 as [wd1 d1 m1 y1], date2 as [wd2 d2 m2 y2].
  unfold formatDate in E. cbn [getDay getDate getMonth getFullYear] in *.
  cbv zeta in E.
  change (", " +:+ ?s)%string with (String "," (String " " s)) in E.
  change (" " +:+ ?s)%string with (String " " s) in E.
  destruct (days_item wd1 wd2 Hd1 Hd2) as [Hc1 Hinj].
  destruct (days_item wd2 wd1 Hd2 Hd1) as [Hc2 _].
  apply (split_at_char "," _ _ _ _ Hc1 Hc2) in E as [Ewd E].
  injection E as E.
  apply (split_at_char " " _ _ _ _ (pretty_nat_no_space d1) (pretty_nat_no_space d2))
    in E as [Ed E].
  destruct (months_item m1 m2 Hm1 Hm2) as [Hs1 Hminj].
  destruct (months_item m2 m1 Hm2 Hm1) as [Hs2 _].
  apply (split_at_char " " _ _ _ _ Hs1 Hs2) in E as [Em Ey].
  apply Hinj in Ewd. apply Hminj in Em.
  apply (inj pretty) in Ed. apply (inj pretty) in Ey.
  now subst.
Qed.

Lemma formatDate_injective_witness :
  {| getDay := 5; getDate := 8; getMonth := 7; getFullYear := 2025 |}
  = {| getDay := 5; getDate := 8; getMonth := 7; getFullYear := 2025 |}.
Proof.
  apply (formatDate_injective
           {| getDay := 5; getDate := 8; getMonth := 7; getFullYear := 2025 |}
           {| getDay := 5; getDate := 8; getMonth := 7; getFullYear := 2025 |});
    first [reflexivity | cbn; lia].
Defined.

(* ===================================================================== *)
(** * The script loader *)
(* ===================================================================== *)





Example loadScripts_run :
  loadScripts ["tfjs"; "coco-ssd"; "tfjs"; "hls"]%string ["hls"]%string
  = ["hls"; "tfjs"; "coco-ssd"]%string.
Proof. reflexivity. Qed.
